(** * gros_client_js: command dispatch and transport core

    A shallow embedding of the TypeScript client (RobotBase, Human, Motor)
    and the properties of its joint dispatcher, its streaming send with
    bounded retry, its clamping primitive and its control-plane request.

    Layout: the fragment of JavaScript the client relies on (numbers,
    values, comparison operators, objects, [parseInt]); the classes, one
    module per class, each function following its source text; then the
    properties. *)

From Stdlib Require Import QArith Lqa Ascii String.
From stdpp Require Import gmap strings list pretty.

Local Open Scope string_scope.
Local Open Scope list_scope.

(** ** The JavaScript fragment *)

Module JS.

(** A JavaScript number. Finite values are kept as exact rationals: every
    binary64 value is a rational, and the client only compares and copies
    numbers, it never computes with them. *)
Inductive number :=
| NaN
| NegInfinity
| Fin (q : Q)
| PosInfinity.

Definition Qlt_bool (x y : Q) : bool := negb (Qle_bool y x).

(** [a < b] on numbers; false as soon as one side is NaN. *)
Definition number_lt (a b : number) : bool :=
  match a, b with
  | NaN, _ | _, NaN => false
  | _, NegInfinity => false
  | NegInfinity, _ => true
  | PosInfinity, _ => false
  | Fin _, PosInfinity => true
  | Fin x, Fin y => Qlt_bool x y
  end.

(** [a === b] on numbers. *)
Definition number_eq (a b : number) : bool :=
  match a, b with
  | NegInfinity, NegInfinity | PosInfinity, PosInfinity => true
  | Fin x, Fin y => Qeq_bool x y
  | _, _ => false
  end.

(** [a <= b] on numbers. *)
Definition number_le (a b : number) : bool :=
  match a, b with
  | NaN, _ | _, NaN => false
  | NegInfinity, _ => true
  | _, PosInfinity => true
  | Fin x, Fin y => Qle_bool x y
  | _, _ => false
  end.

(** [lo <= v && v <= hi]. *)
Definition within (v lo hi : number) : bool :=
  number_le lo v && number_le v hi.

(** The primitive values that reach the client: a missing field or
    argument, JSON null, numbers and strings. *)
Inductive value :=
| VUndefined
| VNull
| VNumber (n : number)
| VString (s : string).

(** What the engine supplies and the client's source does not contain:
    the conversion of a string to a number and the order of two strings
    under [<]. They are consulted only when a string meets a number, or
    another string, in a comparison. *)
Class Runtime := {
  StringToNumber : string -> number;
  StringLessThan : string -> string -> bool
}.

Section Operators.
Context `{Runtime}.

Definition ToNumber (v : value) : number :=
  match v with
  | VUndefined => NaN
  | VNull => Fin 0
  | VNumber n => n
  | VString s => StringToNumber s
  end.

(** [x == y] *)
Definition loose_eq (x y : value) : bool :=
  match x, y with
  | VUndefined, VUndefined | VUndefined, VNull
  | VNull, VUndefined | VNull, VNull => true
  | VNumber a, VNumber b => number_eq a b
  | VString a, VString b => String.eqb a b
  | VNumber a, VString b => number_eq a (StringToNumber b)
  | VString a, VNumber b => number_eq (StringToNumber a) b
  | _, _ => false
  end.

(** [x < y] *)
Definition lt (x y : value) : bool :=
  match x, y with
  | VString a, VString b => StringLessThan a b
  | _, _ => number_lt (ToNumber x) (ToNumber y)
  end.

(** [x > y] *)
Definition gt (x y : value) : bool := lt y x.

End Operators.

(** Objects are finite maps from property names to values. *)
Abbreviation obj := (gmap string value).

(** [o[k]]: a missing property reads as undefined. *)
Definition get (o : obj) (k : string) : value := default VUndefined (o !! k).

(** [{...a, ...b}]: the properties of [b] win. *)
Definition spread (a b : obj) : obj := b ∪ a.

(** *** parseInt

    [parseInt(s)] with no radix: skip leading white space, read an optional
    sign, switch to radix 16 after a [0x] prefix, and read digits as far as
    they go; no digit at all gives NaN. Strings are byte strings here, so
    only the ASCII white space of ECMAScript is recognised. *)

Definition is_white_space (c : ascii) : bool :=
  let n := nat_of_ascii c in
  (n =? 9)%nat || (n =? 10)%nat || (n =? 11)%nat || (n =? 12)%nat
  || (n =? 13)%nat || (n =? 32)%nat.

Fixpoint trim_start (s : string) : string :=
  match s with
  | String c s' => if is_white_space c then trim_start s' else s
  | EmptyString => EmptyString
  end.

Definition digit_value (c : ascii) : option Z :=
  let n := Z.of_nat (nat_of_ascii c) in
  if (48 <=? n)%Z && (n <=? 57)%Z then Some (n - 48)%Z
  else if (97 <=? n)%Z && (n <=? 122)%Z then Some (n - 87)%Z
  else if (65 <=? n)%Z && (n <=? 90)%Z then Some (n - 55)%Z
  else None.

(** The value of the longest prefix of radix-[R] digits, if there is one. *)
Fixpoint leading_digits (R : Z) (s : string) (acc : option Z) : option Z :=
  match s with
  | String c s' =>
      match digit_value c with
      | Some d =>
          if (d <? R)%Z
          then leading_digits R s' (Some (R * default 0%Z acc + d)%Z)
          else acc
      | None => acc
      end
  | EmptyString => acc
  end.

Definition parseInt (s : string) : number :=
  let input := trim_start s in
  let '(sign, unsigned) :=
    match input with
    | String "-" rest => ((-1)%Z, rest)
    | String "+" rest => (1%Z, rest)
    | _ => (1%Z, input)
    end in
  let '(R, body) :=
    match unsigned with
    | String "0" (String "x" rest) | String "0" (String "X" rest) => (16%Z, rest)
    | _ => (10%Z, unsigned)
    end in
  match leading_digits R body None with
  | Some n => Fin (inject_Z (sign * n))
  | None => NaN
  end.

End JS.

(** ** RobotBase: the transport core *)

Module RobotBase.
Import JS.

(** The data of an outbound envelope: [{command: c, data: {command: p}}],
    where [p] is the list of joint entries of a [move_joint] or the single
    object of a motor command. *)
Inductive payload :=
| PayloadList (entries : list obj)
| PayloadObject (o : obj).

Record envelope := Envelope {
  command : string;
  data_command : payload
}.

(** A pending [setTimeout] callback. Both callbacks of the client re-invoke
    the function that armed them, with the same argument. *)
Inductive task :=
| RetrySend (message : envelope)
| RetryMoveJoint (args : list obj).

(** Lines written to the console, with the values their templates print. *)
Inductive log_line :=
| WarnUndefined (name : string) (v : value)
| WarnAboveMax (name : string) (v maxThreshold : value)
| WarnBelowMin (name : string) (v minThreshold : value)
| WarnNotReady (attempt : nat)
| LogMotorLimits (limits : list obj)
| LogTargetList (targets : list obj)
| LogMotorOutOfRange (no : string)
| LogError.

(** Values of an axios request configuration. *)
Inductive cfg_value :=
| CfgString (s : string)
| CfgMillis (ms : nat)
| CfgData (o : obj).

Abbreviation AxiosRequestConfig := (gmap string cfg_value).

(** One robot connection together with the part of its environment the
    client acts on: the socket, the timer queue with a clock in
    milliseconds, the HTTP requests issued and the console.
    [motor_limits] is the field the Human and Motor subclasses add. *)
Record robot := Robot {
  baseUrl : string;
  ws_open : bool;                    (* this.ws && this.ws.readyState === 1 *)
  retry_count : nat;
  motor_limits : list obj;
  sent : list envelope;              (* arguments of ws.send(JSON.stringify(.)) *)
  requests : list AxiosRequestConfig; (* arguments of axios.request *)
  timers : list (nat * task);        (* (due time, callback), in arming order *)
  clock : nat;
  console : list log_line
}.

Definition set_retry_count (n : nat) (r : robot) : robot :=
  Robot (baseUrl r) (ws_open r) n (motor_limits r) (sent r) (requests r)
        (timers r) (clock r) (console r).

Definition set_motor_limits (l : list obj) (r : robot) : robot :=
  Robot (baseUrl r) (ws_open r) (retry_count r) l (sent r) (requests r)
        (timers r) (clock r) (console r).

(** The socket opens or closes ([onopen], [onclose]). *)
Definition set_ws_open (b : bool) (r : robot) : robot :=
  Robot (baseUrl r) b (retry_count r) (motor_limits r) (sent r) (requests r)
        (timers r) (clock r) (console r).

(** [this.ws.send(JSON.stringify(message))]. The envelope is recorded as
    it is handed over; in the text on the wire [JSON.stringify] writes a
    NaN as [null] and leaves out a property whose value is undefined. *)
Definition ws_send (message : envelope) (r : robot) : robot :=
  Robot (baseUrl r) (ws_open r) (retry_count r) (motor_limits r)
        (sent r ++ [message]) (requests r) (timers r) (clock r) (console r).

(** A request goes out. *)
Definition issue (config : AxiosRequestConfig) (r : robot) : robot :=
  Robot (baseUrl r) (ws_open r) (retry_count r) (motor_limits r) (sent r)
        (requests r ++ [config]) (timers r) (clock r) (console r).

(** [setTimeout(() => task, delay)] *)
Definition setTimeout (t : task) (delay : nat) (r : robot) : robot :=
  Robot (baseUrl r) (ws_open r) (retry_count r) (motor_limits r) (sent r)
        (requests r) (timers r ++ [(clock r + delay, t)]) (clock r) (console r).

(** [console.log], [console.warn] *)
Definition console_write (lines : list log_line) (r : robot) : robot :=
  Robot (baseUrl r) (ws_open r) (retry_count r) (motor_limits r) (sent r)
        (requests r) (timers r) (clock r) (console r ++ lines).

(** A call either returns or throws. *)
Inductive result (A : Type) :=
| Ok (a : A)
| Throw (error : string).
Arguments Ok {A} a.
Arguments Throw {A} error.

Definition max_retry_error : string :=
  "Failed to send WebSocket message: Maximum retry limit reached.".

Definition websocket_send (message : envelope) (r : robot) : result robot :=
  if ws_open r then
    Ok (set_retry_count 0 (ws_send message r))
  else if (retry_count r =? 5)%nat then
    Throw max_retry_error
  else
    let r := set_retry_count (retry_count r + 1) r in
    let r := console_write [WarnNotReady (retry_count r)] r in
    Ok (setTimeout (RetrySend message) 1000 r).

(** The configuration handed to [axios.request]:
    [{timeout: 5000, baseURL: this.baseUrl, ...config}]. *)
Definition request_config (config : AxiosRequestConfig) (r : robot)
  : AxiosRequestConfig :=
  config ∪ <["timeout" := CfgMillis 5000]> {["baseURL" := CfgString (baseUrl r)]}.

(** How the endpoint behaves for one request. *)
Inductive endpoint :=
| Answers (delay : nat) (status : nat) (body : list obj)
| NeverAnswers
| Refuses.

Inductive TransportError :=
| TimeoutError
| ConnectionRefused
| BadStatus (status : nat).

Record response := Response {
  status : nat;
  data_data : list obj             (* res.data.data *)
}.

(** The promise of a request: settled at a time, or pending for ever. *)
Inductive settlement :=
| Fulfilled (time : nat) (res : response)
| Rejected (time : nat) (error : TransportError)
| Pending.

(** The timeout a configuration asks for; 0 asks for none. *)
Definition timeout_of (config : AxiosRequestConfig) : option nat :=
  match config !! "timeout" with
  | Some (CfgMillis (S ms)) => Some (S ms)
  | _ => None
  end.

(** Modelled from the spec: [axios.request], the HTTP library call behind
    [http_request], is not part of the repository. Following the Transport
    Core contract, a request returns the parsed response, or fails on
    timeout, on connection refusal, or on a non-success status; with a
    timeout of [t] ms a request that has no answer [t] ms after it was
    issued fails then. *)
Definition axios_request (config : AxiosRequestConfig) (server : endpoint)
    (now : nat) : settlement :=
  match server with
  | Refuses => Rejected now ConnectionRefused
  | NeverAnswers =>
      match timeout_of config with
      | Some t => Rejected (now + t) TimeoutError
      | None => Pending
      end
  | Answers delay code body =>
      match timeout_of config with
      | Some t =>
          if (t <=? delay)%nat then Rejected (now + t) TimeoutError
          else if (200 <=? code)%nat && (code <? 300)%nat
          then Fulfilled (now + delay) (Response code body)
          else Rejected (now + delay) (BadStatus code)
      | None =>
          if (200 <=? code)%nat && (code <? 300)%nat
          then Fulfilled (now + delay) (Response code body)
          else Rejected (now + delay) (BadStatus code)
      end
  end.

(** [http_request(config)]: one call of [axios.request], whose promise is
    returned as it is. *)
Definition http_request (config : AxiosRequestConfig) (server : endpoint)
    (r : robot) : robot * settlement :=
  let config := request_config config r in
  (issue config r, axios_request config server (clock r)).

Section CoverParam.
Context `{Runtime}.

(** [cover_param(value, name, minThreshold, maxThreshold)], with the
    warnings it writes. *)
Definition cover_param (v : value) (name : string)
    (minThreshold maxThreshold : value) : value * list log_line :=
  let '(v, w1) :=
    if loose_eq v VUndefined
    then (VNumber (Fin 0), [WarnUndefined name v])
    else (v, []) in
  let '(v, w2) :=
    if gt v maxThreshold
    then (maxThreshold, [WarnAboveMax name v maxThreshold])
    else (v, []) in
  let '(v, w3) :=
    if lt v minThreshold
    then (minThreshold, [WarnBelowMin name v minThreshold])
    else (v, []) in
  (v, w1 ++ w2 ++ w3).

End CoverParam.

End RobotBase.

(** ** Human: the joint dispatcher *)

Module Human.
Import JS RobotBase.

(** Instances of the exported class [Motor]. *)
Definition Motor (no orientation : string) (angle : number) : obj :=
  {[ "no" := VString no; "orientation" := VString orientation;
     "angle" := VNumber angle ]}.

(** The callbacks the constructor attaches to [get_motor_limit_list()]:
    [then] stores [res.data.data], [catch] logs the error. *)
Definition limits_settled (s : settlement) (r : robot) : robot :=
  match s with
  | Fulfilled _ res => set_motor_limits (data_data res) r
  | Rejected _ _ => console_write [LogError] r
  | Pending => r
  end.

(** The request of [get_motor_limit_list()]. *)
Definition get_motor_limit_list : AxiosRequestConfig :=
  {[ "method" := CfgString "GET"; "url" := CfgString "/robot/motor/limit/list" ]}.

Section Dispatch.
Context `{Runtime}.

(** [{no: motor.no, orientation: motor.orientation, angle: motor.angle}] *)
Definition normalize (motor : obj) : obj :=
  {[ "no" := get motor "no"; "orientation" := get motor "orientation";
     "angle" := get motor "angle" ]}.

(** The test of the inner loop. *)
Definition same_joint (item1 item2 : obj) : bool :=
  loose_eq (get item1 "no") (get item2 "no")
  && loose_eq (get item1 "orientation") (get item2 "orientation").

(** The two nested [forEach] loops that fill [target_list]. *)
Definition join (motors limits : list obj) : list obj :=
  item1 ← motors;
  item2 ← limits;
  if same_joint item1 item2 then [spread item1 item2] else [].

(** The body of the last [forEach]: clamp the angle in place, then delete
    the bounds and the address. *)
Definition adjust (motor : obj) : obj * list log_line :=
  let '(angle, warnings) :=
    cover_param (get motor "angle") "angle"
                (get motor "min_angle") (get motor "max_angle") in
  (delete "ip" (delete "max_angle" (delete "min_angle"
     (<["angle" := angle]> motor))), warnings).

Definition move_joint (args : list obj) (r : robot) : result robot :=
  let motors := normalize <$> args in
  let r := console_write [LogMotorLimits (motor_limits r)] r in
  if (length (motor_limits r) =? 0)%nat then
    Ok (setTimeout (RetryMoveJoint args) 500 r)
  else
    let target_list := join motors (motor_limits r) in
    if (0 <? length target_list)%nat then
      let r := console_write (target_list ≫= (λ motor, (adjust motor).2)) r in
      let target_list := (λ motor, (adjust motor).1) <$> target_list in
      let r := console_write [LogTargetList target_list] r in
      websocket_send (Envelope "move_joint" (PayloadList target_list)) r
    else Ok r.

End Dispatch.

End Human.

(** ** Motor: single-motor commands *)

Module Motor.
Import JS RobotBase.

Section Dispatch.
Context `{Runtime}.

(** The same dispatcher as [Human.move_joint], without its two
    [console.log] lines. *)
Definition move_joint (args : list obj) (r : robot) : result robot :=
  let motors := Human.normalize <$> args in
  if (length (motor_limits r) =? 0)%nat then
    Ok (setTimeout (RetryMoveJoint args) 500 r)
  else
    let target_list := Human.join motors (motor_limits r) in
    if (0 <? length target_list)%nat then
      let r := console_write (target_list ≫= (λ motor, (Human.adjust motor).2)) r in
      let target_list := (λ motor, (Human.adjust motor).1) <$> target_list in
      websocket_send (Envelope "move_joint" (PayloadList target_list)) r
    else Ok r.

End Dispatch.

(** [{command: name, data: {command: {no, orientation}}}] *)
Definition motor_command (name no orientation : string) : envelope :=
  Envelope name
    (PayloadObject {[ "no" := VString no; "orientation" := VString orientation ]}).

Definition enable_motor (no orientation : string) (r : robot) : result robot :=
  if number_lt (Fin 8) (parseInt no) then
    Ok (console_write [LogMotorOutOfRange no] r)
  else
    websocket_send (motor_command "enable_motor" no orientation) r.

Definition disable_motor (no orientation : string) (r : robot) : result robot :=
  if number_lt (Fin 8) (parseInt no) then
    Ok (console_write [LogMotorOutOfRange no] r)
  else
    websocket_send (motor_command "disable_motor" no orientation) r.

End Motor.

(** ** The timer queue *)

Module EventLoop.
Import JS RobotBase.

(** The timer that fires next: the least due time, and among equal due
    times the one armed first. Returned with the timers that stay. *)
Fixpoint next_timer (ts : list (nat * task))
  : option ((nat * task) * list (nat * task)) :=
  match ts with
  | [] => None
  | t :: rest =>
      match next_timer rest with
      | Some (u, rest') =>
          if (u.1 <? t.1)%nat then Some (u, t :: rest') else Some (t, rest)
      | None => Some (t, [])
      end
  end.

(** The timer leaves the queue and the clock reaches its due time. *)
Definition begin_callback (due : nat) (rest : list (nat * task)) (r : robot)
  : robot :=
  Robot (baseUrl r) (ws_open r) (retry_count r) (motor_limits r) (sent r)
        (requests r) rest (Nat.max (clock r) due) (console r).

Section Run.
(** The class of the instance decides which [move_joint] a retry runs. *)
Variable move_joint : list obj -> robot -> result robot.

Definition run (t : task) (r : robot) : result robot :=
  match t with
  | RetrySend message => websocket_send message r
  | RetryMoveJoint args => move_joint args r
  end.

(** Let the next timer fire. A robot without timers stays as it is. *)
Definition fire (r : robot) : result robot :=
  match next_timer (timers r) with
  | Some ((due, t), rest) => run t (begin_callback due rest r)
  | None => Ok r
  end.

(** [n] timers fire in a row; the run is followed up to the first
    exception. *)
Fixpoint fire_n (n : nat) (r : robot) : result robot :=
  match n with
  | O => Ok r
  | S n =>
      match fire r with
      | Ok r' => fire_n n r'
      | Throw e => Throw e
      end
  end.

End Run.

End EventLoop.

(** ** The vocabulary of the properties *)

Module Dispatcher.
Import JS RobotBase.

Section Outbound.
Context `{Runtime}.

(** [target_list] as the nested loops of [move_joint] leave it. *)
Definition targets (args limits : list obj) : list obj :=
  Human.join (Human.normalize <$> args) limits.

(** [target_list] as [move_joint] hands it to [websocket_send]. *)
Definition outbound (args limits : list obj) : list obj :=
  (λ motor, (Human.adjust motor).1) <$> targets args limits.

(** The warnings of the last loop. *)
Definition warnings (args limits : list obj) : list log_line :=
  targets args limits ≫= (λ motor, (Human.adjust motor).2).

(** Some record of the cache matches the target. *)
Definition has_limit (limits : list obj) (motor : obj) : bool :=
  existsb (Human.same_joint (Human.normalize motor)) limits.

End Outbound.

(** The spec's clamp (P1): [min] below [min], [max] above [max], the value
    itself in between. *)
Definition clamp (v lo hi : number) : number :=
  if number_lt v lo then lo else if number_lt hi v then hi else v.

(** The values [cover_param] brings into range: undefined, null and every
    number but NaN. *)
Definition clampable (v : value) : Prop :=
  match v with
  | VUndefined | VNull => True
  | VNumber n => n ≠ NaN
  | VString _ => False
  end.

(** A limit record with numeric bounds [lo <= hi]. *)
Definition numeric_bounds (l : obj) (lo hi : number) : Prop :=
  l !! "min_angle" = Some (VNumber lo)
  /\ l !! "max_angle" = Some (VNumber hi)
  /\ number_le lo hi = true.

(** The envelopes a dispatch adds to the socket when it is open. *)
Definition move_joint_frames (entries : list obj) : list envelope :=
  match entries with
  | [] => []
  | _ => [Envelope "move_joint" (PayloadList entries)]
  end.

(** The compound key of a record whose joint number and orientation are
    strings. *)
Definition key_of (o : obj) : option (string * string) :=
  match get o "no", get o "orientation" with
  | VString no, VString orientation => Some (no, orientation)
  | _, _ => None
  end.

(** At most one record per compound key. *)
Definition unique_keys (limits : list obj) : Prop :=
  (forall l, l ∈ limits -> is_Some (key_of l)) /\ NoDup (key_of <$> limits).

(** A limit record as the robot reports it:
    [{no, orientation, min_angle, max_angle, ip}]. *)
Definition JointLimit (no orientation : string) (min_angle max_angle : number)
    (ip : string) : obj :=
  {[ "no" := VString no; "orientation" := VString orientation;
     "min_angle" := VNumber min_angle; "max_angle" := VNumber max_angle;
     "ip" := VString ip ]}.

(** The fields of a control-plane request as the facades build it. *)
Definition request_fields : gset string :=
  {[ "method"; "url"; "data"; "params" ]}.

(** The fields of a reported limit record and of an outbound entry. *)
Definition limit_fields : gset string :=
  {[ "no"; "orientation"; "min_angle"; "max_angle"; "ip" ]}.

Definition entry_fields : gset string :=
  {[ "no"; "orientation"; "angle" ]}.

End Dispatcher.

(** ** States along a retry chain *)

Module Traces.
Import JS RobotBase.

(** The connection [r] after [c] failed attempts to send [message] on a
    socket that is not open, the first one made at [clock r]: the counter
    is [c], the next attempt is due 1000 ms after the last one. *)
Definition waiting (message : envelope) (r : robot) (c : nat) : robot :=
  Robot (baseUrl r) false c (motor_limits r) (sent r) (requests r)
        [(clock r + 1000 * c, RetrySend message)]
        (clock r + 1000 * (c - 1))
        (console r ++ (WarnNotReady <$> seq 1 c)).

(** The connection [r] after a dispatch of [args] found the cache empty
    and [n] retries found it empty again. *)
Definition polling (args : list obj) (r : robot) (n : nat) : robot :=
  Robot (baseUrl r) (ws_open r) (retry_count r) [] (sent r) (requests r)
        [(clock r + 500 * (n + 1), RetryMoveJoint args)]
        (clock r + 500 * n)
        (console r ++ replicate (n + 1) (LogMotorLimits [])).

End Traces.

(** ** Worked inputs *)

Module Examples.
Import JS RobotBase Dispatcher.

(** An engine for the closed examples. They compare strings with strings
    and numbers with numbers only, so [StringToNumber] is never applied in
    them; each one is an instance of a lemma that holds for every engine. *)
Definition engine : Runtime :=
  {| StringToNumber := λ _, NaN; StringLessThan := String.ltb |}.

Definition url : string := "http://127.0.0.1:8001".

(** A connection whose socket is open, with a given limit cache. *)
Definition open_robot (limits : list obj) : robot :=
  Robot url true 0 limits [] [] [] 0 [].

(** A connection right after construction: socket not open yet, cache
    empty. *)
Definition fresh_robot : robot := Robot url false 0 [] [] [] [] 0 [].

Definition limit_1_left (ip : string) : obj :=
  JointLimit "1" "left" (Fin (-10)) (Fin 10) ip.

(** The batch of P3 and the frame it is sent as. *)
Definition batch : list obj :=
  [Human.Motor "1" "left" (Fin 99); Human.Motor "99" "left" (Fin 5)].

Definition clamped_frame : envelope :=
  Envelope "move_joint" (PayloadList [Human.Motor "1" "left" (Fin 10)]).

(** A table that reports joint 1 left twice, with different bounds. *)
Definition doubled_table : list obj :=
  [JointLimit "1" "left" (Fin (-10)) (Fin 10) "x";
   JointLimit "1" "left" (Fin (-20)) (Fin 20) "y"].

End Examples.

(** ** The other commands of the facades *)

Module Facade.
Import JS RobotBase.

(** The numbers the decimal literals of the source denote: the binary64
    value nearest to each, written as a fraction. *)
Definition lit_0_8 : Q := 3602879701896397 # 4503599627370496.
Definition lit_17_1887 : Q := 4838188932186453 # 281474976710656.
Definition lit_0_15 : Q := 5404319552844595 # 36028797018963968.
Definition lit_14_32 : Q := 2015360833248297 # 140737488355328.

(** [lo, hi] as the two threshold arguments of [cover_param]. *)
Abbreviation num q := (VNumber (Fin q)).

(** A message with a plain data object: [{command: c, data: d}]. *)
Record frame := Frame {
  frame_command : string;
  frame_data : obj
}.

Section Motion.
Context `{Runtime}.

(** [Human.walk(angle, speed)] up to its last line: the message it hands
    to [websocket_send], and the warnings written on the way. *)
Definition walk_message (angle speed : value) : frame * list log_line :=
  let '(angle, w1) := cover_param angle "angle" (num (-45)) (num 45) in
  let '(speed, w2) := cover_param speed "speed" (num (- lit_0_8)) (num lit_0_8) in
  (Frame "move" {[ "angle" := angle; "speed" := speed ]}, w1 ++ w2).

(** [Human.head(roll, pitch, yaw)], likewise. *)
Definition head_message (roll pitch yaw : value) : frame * list log_line :=
  let '(roll, w1) :=
    cover_param roll "roll" (num (- lit_17_1887)) (num lit_17_1887) in
  let '(pitch, w2) :=
    cover_param pitch "pitch" (num (- lit_17_1887)) (num lit_17_1887) in
  let '(yaw, w3) :=
    cover_param yaw "yaw" (num (- lit_17_1887)) (num lit_17_1887) in
  (Frame "head" {[ "roll" := roll; "pitch" := pitch; "yaw" := yaw ]},
   w1 ++ w2 ++ w3).

(** [Human.body(squat, rotate_waist)], likewise. *)
Definition body_message (squat rotate_waist : value) : frame * list log_line :=
  let '(squat, w1) := cover_param squat "squat" (num (- lit_0_15)) (num 0) in
  let '(rotate_waist, w2) :=
    cover_param rotate_waist "rotate_waist"
      (num (- lit_14_32)) (num lit_14_32) in
  (Frame "lower_body" {[ "squat" := squat; "rotate_waist" := rotate_waist ]},
   w1 ++ w2).

(** [Car.move(angle, speed)], likewise. *)
Definition car_move_message (angle speed : value) : frame * list log_line :=
  let '(angle, w1) := cover_param angle "angle" (num (-45)) (num 45) in
  let '(speed, w2) := cover_param speed "speed" (num (-500)) (num 500) in
  (Frame "move" {[ "angle" := angle; "speed" := speed ]}, w1 ++ w2).

(** [Motor.move_motor(no, orientation, angle)]: a batch of one target. *)
Definition move_motor (no orientation : string) (angle : value) (r : robot)
  : result robot :=
  let motors :=
    [ ({[ "no" := VString no; "orientation" := VString orientation;
          "angle" := angle ]} : obj) ] in
  Motor.move_joint motors r.

End Motion.

(** A parameter with a default value: the default stands in for an
    argument that is undefined. *)
Definition default_arg (v d : value) : value :=
  match v with
  | VUndefined => d
  | _ => v
  end.

(** The request-response methods: each builds a configuration and returns
    the promise of [http_request]. *)
Definition request (method url : string) : AxiosRequestConfig :=
  {[ "method" := CfgString method; "url" := CfgString url ]}.

Definition call (config : AxiosRequestConfig) (server : endpoint) (r : robot)
  : robot * settlement :=
  http_request config server r.

(** RobotBase *)
Definition start := call (request "POST" "/robot/start").
Definition stop := call (request "POST" "/robot/stop").

(** Human *)
Definition stand := call (request "POST" "/robot/stand").
Definition get_joint_limit := call (request "GET" "/robot/join_limit").
Definition get_joint_states := call (request "GET" "/robot/joint_states").
Definition enable_debug_state (frequence : value) :=
  call (<["params" := CfgData {[ "frequence" := default_arg frequence (num 1) ]}]>
          (request "GET" "/robot/enable_states_listen")).
Definition disable_debug_state :=
  call (request "GET" "/robot/disable_states_listen").
Definition upper_body (arm_action hand_action : value) :=
  call (<["data" := CfgData {[ "arm_action" := arm_action;
                               "hand_action" := hand_action ]}]>
          (request "POST" "/robot/upper_body")).
Definition lower_body (lower_body_mode : value) :=
  call (<["data" := CfgData {[ "lower_body_mode" := lower_body_mode ]}]>
          (request "POST" "/robot/lower_body")).
Definition get_motor_limit_list := call Human.get_motor_limit_list.
Definition control_svr_start := call (request "GET" "/robot/sdk_ctrl/start").
Definition control_svr_close := call (request "GET" "/robot/sdk_ctrl/close").
Definition control_svr_status := call (request "GET" "/robot/sdk_ctrl/status").
Definition control_svr_log_view := call (request "GET" "/robot/sdk_ctrl/log").

(** Motor *)
Definition enable_hand := call (request "GET" "/robot/motor/hand/enable").
Definition disable_hand := call (request "GET" "/robot/motor/hand/disable").
Definition get_motor_pvc (no orientation : string) :=
  call (<["data" := CfgData {[ "no" := VString no;
                               "orientation" := VString orientation ]}]>
          (request "POST" "/robot/motor/pvc")).
Definition get_hand_position := call (request "POST" "/robot/motor/hand/state").

(** EndEffector *)
Definition end_effector_enable :=
  call (request "GET" "/robot/end_effector/enable").
Definition end_effector_disable :=
  call (request "GET" "/robot/end_effector/disable").
Definition end_effector_disable_state :=
  call (request "GET" "/robot/enable_terminal_state").

End Facade.

(** ** The vocabulary of the further properties *)

Module Observations.
Import JS RobotBase.

(** The messages waiting in the timer queue for another attempt. *)
Definition pending (ts : list (nat * task)) : list envelope :=
  t ← ts;
  match t.2 with
  | RetrySend message => [message]
  | RetryMoveJoint _ => []
  end.

(** All timers are retries of a send. *)
Definition only_sends (ts : list (nat * task)) : Prop :=
  forall t, t ∈ ts -> exists message, t.2 = RetrySend message.



(** A request-response method: one request with the timeout 5000 and the
    base URL of the connection, nothing on the socket or the timer queue,
    and a timeout error 5000 ms later when the endpoint never answers. *)
Definition control_call (f : endpoint -> robot -> robot * settlement) : Prop :=
  forall server r, exists config,
    requests (f server r).1 = requests r ++ [config]
    /\ config !! "timeout" = Some (CfgMillis 5000)
    /\ config !! "baseURL" = Some (CfgString (baseUrl r))
    /\ sent (f server r).1 = sent r /\ timers (f server r).1 = timers r
    /\ (f NeverAnswers r).2 = Rejected (clock r + 5000) TimeoutError.

End Observations.

(** ** Where a connection goes *)

Module Connect.

(** The optional parameters of a connection. A port is a whole number, and
    [`${port}`] writes it in decimal. *)
Record ConnectOption := {
  ssl : option bool;
  host : option string;
  port : option nat
}.

(** [const {ssl = false, host = '127.0.0.1', port = '8001'} = option ?? {}] *)
Definition ssl_of (option : option ConnectOption) : bool :=
  default false (option ≫= ssl).
Definition host_of (option : option ConnectOption) : string :=
  default "127.0.0.1" (option ≫= host).
Definition port_of (option : option ConnectOption) : string :=
  default "8001" (pretty <$> (option ≫= port)).

(** The two addresses the constructor of RobotBase computes. *)
Definition wsUrl (option : option ConnectOption) : string :=
  if ssl_of option
  then "wss://" +:+ host_of option +:+ ":" +:+ port_of option +:+ "/ws"
  else "ws://" +:+ host_of option +:+ ":" +:+ port_of option +:+ "/ws".

Definition baseUrl (option : option ConnectOption) : string :=
  if ssl_of option
  then "https://" +:+ host_of option +:+ ":" +:+ port_of option
  else "http://" +:+ host_of option +:+ ":" +:+ port_of option.

(** The address [get_robot_type(option)] queries. *)
Definition get_robot_type (option : option ConnectOption) : string :=
  if ssl_of option
  then "https://" +:+ host_of option +:+ ":" +:+ port_of option +:+ "/robot/type"
  else "http://" +:+ host_of option +:+ ":" +:+ port_of option +:+ "/robot/type".

(** The address the constructor of Camera queries. *)
Definition camera_status (baseurl : string) : string :=
  baseurl +:+ "/control/camera_status".

End Connect.

(** ** Further worked inputs *)

Module MoreExamples.
Import JS RobotBase.

(** A motor command, to have a second message at hand. *)
Definition enable_1_left : envelope := Motor.motor_command "enable_motor" "1" "left".


(** A request that brings its own timeout. *)
Definition hasty_request : AxiosRequestConfig :=
  <["timeout" := CfgMillis 100]> Human.get_motor_limit_list.

End MoreExamples.

(** * Properties *)

Import JS RobotBase Dispatcher.

(** ** Numbers *)

Lemma Qle_bool_reflect (x y : Q) : reflect (x <= y)%Q (Qle_bool x y).
Proof.
  destruct (Qle_bool x y) eqn:E; constructor.
  - by apply Qle_bool_iff.
  - intros Hle. apply Qle_bool_iff in Hle. congruence.
Qed.

Ltac number_cases :=
  unfold within, clamp, number_lt, number_le, number_eq, Qlt_bool in *;
  repeat match goal with
         | n : number |- _ => destruct n
         end;
  simpl in *; try done;
  repeat match goal with
         | H : context [Qle_bool ?x ?y] |- _ =>
             destruct (Qle_bool_reflect x y); simpl in *; try done
         | |- context [Qle_bool ?x ?y] =>
             destruct (Qle_bool_reflect x y); simpl in *; try done
         end;
  try lra.

Lemma number_lt_le_trans (a b c : number) :
  number_lt a b = true -> number_le b c = true -> number_lt c a = false.
Proof. intros. number_cases. Qed.

Lemma number_le_not_lt (a b : number) :
  number_le a b = true -> number_lt b a = false.
Proof. intros. number_cases. Qed.

Lemma clamp_within (v lo hi : number) :
  v ≠ NaN -> number_le lo hi = true -> within (clamp v lo hi) lo hi = true.
Proof. intros. number_cases. Qed.

(** ** The clamping primitive *)

Section CoverParamProperties.
Context `{Runtime}.

(** On numbers the three tests of [cover_param] are number comparisons. *)
Lemma cover_param_number (v lo hi : number) (name : string) :
  (cover_param (VNumber v) name (VNumber lo) (VNumber hi)).1 =
  VNumber (let v := if number_lt hi v then hi else v in
           if number_lt v lo then lo else v).
Proof.
  unfold cover_param, gt, lt, loose_eq, ToNumber.
  destruct (number_lt hi v); simpl;
    [destruct (number_lt hi lo) | destruct (number_lt v lo)]; done.
Qed.

Lemma cover_param_undefined (v lo hi : value) (name : string) :
  loose_eq v VUndefined = true ->
  (cover_param v name lo hi).1 = (cover_param (VNumber (Fin 0)) name lo hi).1.
Proof.
  intros Hv. unfold cover_param. rewrite Hv.
  replace (loose_eq (VNumber (Fin 0)) VUndefined) with false by done.
  destruct (gt _ hi); destruct (lt _ lo); done.
Qed.

(** With [min <= max] the two tests in a row are the spec's clamp. *)
Lemma cover_param_number_clamp (v lo hi : number) (name : string) :
  number_le lo hi = true ->
  (cover_param (VNumber v) name (VNumber lo) (VNumber hi)).1
    = VNumber (clamp v lo hi).
Proof.
  intros Hle. rewrite cover_param_number. f_equal. unfold clamp.
  destruct (number_lt v lo) eqn:Hlo.
  - rewrite (number_lt_le_trans v lo hi) by done. by rewrite Hlo.
  - destruct (number_lt hi v) eqn:Hhi; [|by rewrite Hlo].
    by rewrite (number_le_not_lt lo hi).
Qed.

(** C5. With [min <= max], [cover_param] returns [min] for a value below
    [min], [max] for a value above [max] and the value itself otherwise;
    an undefined value is replaced by 0 and clamped in the same way. *)
Theorem cover_param_clamp (v lo hi : number) (name : string) :
  number_le lo hi = true ->
  (cover_param (VNumber v) name (VNumber lo) (VNumber hi)).1
    = VNumber (clamp v lo hi)
  /\ (cover_param VUndefined name (VNumber lo) (VNumber hi)).1
    = VNumber (clamp (Fin 0) lo hi).
Proof.
  intros Hle. split.
  - by apply cover_param_number_clamp.
  - rewrite cover_param_undefined by done. by apply cover_param_number_clamp.
Qed.

Lemma cover_param_within (v : value) (lo hi : number) (name : string) :
  clampable v -> number_le lo hi = true ->
  exists x, (cover_param v name (VNumber lo) (VNumber hi)).1 = VNumber x
            /\ within x lo hi = true.
Proof.
  intros Hv Hle.
  assert (Hzero : exists x,
    (cover_param (VNumber (Fin 0)) name (VNumber lo) (VNumber hi)).1 = VNumber x
    /\ within x lo hi = true).
  { exists (clamp (Fin 0) lo hi). split.
    - by apply cover_param_number_clamp.
    - by apply clamp_within. }
  destruct v as [| |n|s]; simpl in Hv; try done.
  - by rewrite cover_param_undefined.
  - by rewrite cover_param_undefined.
  - exists (clamp n lo hi). split.
    + by apply cover_param_number_clamp.
    + by apply clamp_within.
Qed.

(** C6. [cover_param] returns NaN for a NaN value, whatever the
    thresholds, and NaN lies in no range. *)
Theorem cover_param_nan (lo hi : number) (name : string) :
  (cover_param (VNumber NaN) name (VNumber lo) (VNumber hi)).1 = VNumber NaN
  /\ within NaN lo hi = false.
Proof.
  split.
  - rewrite cover_param_number. by destruct hi, lo.
  - by destruct lo, hi.
Qed.

End CoverParamProperties.

(** ** The joint dispatcher *)

Section DispatcherProperties.
Context `{Runtime}.

Implicit Types (args limits : list obj) (motor a l e : obj).

Lemma get_normalize motor k :
  k ∈ entry_fields -> get (Human.normalize motor) k = get motor k.
Proof.
  unfold entry_fields, Human.normalize, get. intros Hk.
  assert (k = "no" \/ k = "orientation" \/ k = "angle") as Hcases
    by set_solver.
  destruct Hcases as [-> | [-> | ->]]; by simplify_map_eq.
Qed.

Lemma dom_normalize motor : dom (Human.normalize motor) = entry_fields.
Proof. unfold Human.normalize, entry_fields. set_solver. Qed.

Lemma dom_JointLimit (no orientation ip : string) (lo hi : number) :
  dom (JointLimit no orientation lo hi ip) = limit_fields.
Proof. unfold JointLimit, limit_fields. set_solver. Qed.

Lemma same_joint_normalize motor l :
  Human.same_joint (Human.normalize motor) l = Human.same_joint motor l.
Proof.
  unfold Human.same_joint.
  rewrite !get_normalize; [done| |]; unfold entry_fields; set_solver.
Qed.

(** What the nested loops collect: one merged object per matching pair,
    in the order of the targets, then of the cache. *)
Lemma join_cons (item1 : obj) (motors limits : list obj) :
  Human.join (item1 :: motors) limits =
  (spread item1 <$> filter (λ item2, Human.same_joint item1 item2 = true) limits)
  ++ Human.join motors limits.
Proof.
  unfold Human.join. rewrite bind_cons. f_equal.
  induction limits as [|item2 limits IH]; [done|].
  rewrite bind_cons, IH, filter_cons.
  destruct (Human.same_joint item1 item2) eqn:E.
  - by rewrite decide_True.
  - by rewrite decide_False by done.
Qed.

Lemma elem_of_targets e args limits :
  e ∈ targets args limits <->
  exists a l, a ∈ args /\ l ∈ limits /\ Human.same_joint a l = true
              /\ e = spread (Human.normalize a) l.
Proof.
  unfold targets. induction args as [|a args IH].
  - split; [by intros ?%elem_of_nil | by intros (?&?&?%elem_of_nil&_)].
  - rewrite fmap_cons, join_cons, elem_of_app, IH, list_elem_of_fmap.
    setoid_rewrite list_elem_of_filter. setoid_rewrite same_joint_normalize.
    split.
    + intros [(l&->&Hm&Hl)|(a'&l&Ha&Hl&Hm&->)].
      * exists a, l. by rewrite elem_of_cons; auto.
      * exists a', l. by rewrite elem_of_cons; auto.
    + intros (a'&l&[->|Ha]%elem_of_cons&Hl&Hm&->); [left|right]; eauto 10.
Qed.

Lemma elem_of_outbound e args limits :
  e ∈ outbound args limits <->
  exists a l, a ∈ args /\ l ∈ limits /\ Human.same_joint a l = true
              /\ e = (Human.adjust (spread (Human.normalize a) l)).1.
Proof.
  unfold outbound. rewrite list_elem_of_fmap.
  setoid_rewrite elem_of_targets. naive_solver.
Qed.

Lemma adjust_fst motor :
  (Human.adjust motor).1 =
  delete "ip" (delete "max_angle" (delete "min_angle"
    (<["angle" := (cover_param (get motor "angle") "angle"
                     (get motor "min_angle") (get motor "max_angle")).1]> motor))).
Proof. unfold Human.adjust. by destruct (cover_param _ _ _ _). Qed.

Lemma get_adjust_angle motor :
  get (Human.adjust motor).1 "angle" =
  (cover_param (get motor "angle") "angle"
     (get motor "min_angle") (get motor "max_angle")).1.
Proof. rewrite adjust_fst. unfold get at 1. by simplify_map_eq. Qed.

Lemma dom_adjust motor :
  dom (Human.adjust motor).1 =
  (dom motor ∪ {["angle"]}) ∖ {["min_angle"; "max_angle"; "ip"]}.
Proof. rewrite adjust_fst, !dom_delete_L, dom_insert_L. set_solver. Qed.

Lemma get_spread_l a l k : l !! k = None -> get (spread a l) k = get a k.
Proof. intros Hk. unfold get, spread. by rewrite lookup_union_r. Qed.

Lemma get_spread_r a l k v : l !! k = Some v -> get (spread a l) k = v.
Proof.
  intros Hk. unfold get, spread. by rewrite (lookup_union_Some_l _ _ _ v).
Qed.

Lemma get_spread_bound a l k :
  k ∉ entry_fields -> get (spread (Human.normalize a) l) k = get l k.
Proof.
  intros Hk. unfold get, spread. destruct (l !! k) as [v|] eqn:E.
  - by rewrite (lookup_union_Some_l _ _ _ v).
  - rewrite lookup_union_r by done.
    by rewrite (proj1 (not_elem_of_dom _ _)) by (by rewrite dom_normalize).
Qed.

(** [move_joint] in terms of the list it hands over. *)
Lemma move_joint_unfold args r :
  Human.move_joint args r =
  let r1 := console_write [LogMotorLimits (motor_limits r)] r in
  match motor_limits r with
  | [] => Ok (setTimeout (RetryMoveJoint args) 500 r1)
  | _ =>
      match outbound args (motor_limits r) with
      | [] => Ok r1
      | entries =>
          websocket_send (Envelope "move_joint" (PayloadList entries))
            (console_write [LogTargetList entries]
               (console_write (warnings args (motor_limits r)) r1))
      end
  end.
Proof.
  unfold Human.move_joint, outbound, warnings, targets. simpl.
  destruct (motor_limits r) as [|l ls] eqn:El; [done|]. simpl.
  by destruct (Human.join _ _).
Qed.

(** The same for the Motor class, which logs less. *)
Lemma motor_move_joint_unfold args r :
  Motor.move_joint args r =
  match motor_limits r with
  | [] => Ok (setTimeout (RetryMoveJoint args) 500 r)
  | _ =>
      match outbound args (motor_limits r) with
      | [] => Ok r
      | entries =>
          websocket_send (Envelope "move_joint" (PayloadList entries))
            (console_write (warnings args (motor_limits r)) r)
      end
  end.
Proof.
  unfold Motor.move_joint, outbound, warnings, targets.
  destruct (motor_limits r) as [|l ls] eqn:El; [done|]. simpl.
  by destruct (Human.join _ _).
Qed.

(** With the socket open and the cache filled, a dispatch adds at most one
    frame, arms no timer and does not throw. *)
Lemma move_joint_open args r :
  ws_open r = true -> motor_limits r ≠ [] ->
  exists r', Human.move_joint args r = Ok r'
    /\ sent r' = sent r ++ move_joint_frames (outbound args (motor_limits r))
    /\ timers r' = timers r /\ motor_limits r' = motor_limits r
    /\ ws_open r' = true /\ clock r' = clock r.
Proof.
  intros Hopen Hlim. rewrite move_joint_unfold. simpl.
  destruct (motor_limits r) as [|l ls] eqn:El; [done|].
  destruct (outbound args (l :: ls)) as [|e es] eqn:Eo.
  - eexists. split; [done|]. simpl. by rewrite app_nil_r, El.
  - unfold websocket_send. simpl. rewrite Hopen. eexists. split; [done|].
    simpl. by rewrite El.
Qed.

(** C7. No entry handed to the socket has a [min_angle], [max_angle] or
    [ip] field; when the cached records have the reported shape, the
    fields of an entry are exactly [no], [orientation] and [angle]. *)
Theorem outbound_entry_fields args limits e :
  e ∈ outbound args limits ->
  ("min_angle" ∉ dom e) /\ ("max_angle" ∉ dom e) /\ ("ip" ∉ dom e)
  /\ ((forall l, l ∈ limits -> dom l ⊆ limit_fields) -> dom e = entry_fields).
Proof.
  intros (a & l & Ha & Hl & Hm & ->)%elem_of_outbound.
  rewrite dom_adjust. unfold spread. rewrite dom_union_L, dom_normalize.
  split_and!; [set_solver..|].
  intros Hshape. specialize (Hshape l Hl).
  unfold limit_fields, entry_fields in *. set_solver.
Qed.

(** Away from NaN angles every entry is within the bounds of the record
    it was joined with. The angle that is clamped is the target's, or the
    record's when the record has an [angle] field of its own. *)
Lemma outbound_angle_within args limits e :
  (forall a, a ∈ args -> clampable (get a "angle")) ->
  (forall l v, l ∈ limits -> l !! "angle" = Some v -> clampable v) ->
  (forall l, l ∈ limits -> exists lo hi, numeric_bounds l lo hi) ->
  e ∈ outbound args limits ->
  exists a l lo hi x,
    a ∈ args /\ l ∈ limits /\ Human.same_joint a l = true
    /\ numeric_bounds l lo hi
    /\ get e "angle" = VNumber x /\ within x lo hi = true.
Proof.
  intros Hargs Hown Hlimits (a & l & Ha & Hl & Hm & ->)%elem_of_outbound.
  destruct (Hlimits l Hl) as (lo & hi & Hb).
  pose proof Hb as (Hlo & Hhi & Hle).
  assert (Hangle : clampable (get (spread (Human.normalize a) l) "angle")).
  { destruct (l !! "angle") as [v|] eqn:Ev.
    - rewrite (get_spread_r _ _ "angle" v) by done. by apply (Hown l).
    - rewrite get_spread_l by done.
      rewrite get_normalize by (unfold entry_fields; set_solver).
      by apply Hargs. }
  destruct (cover_param_within (get (spread (Human.normalize a) l) "angle")
              lo hi "angle") as (x & Hx & Hin); [done..|].
  exists a, l, lo, hi, x. split_and!; try done.
  rewrite get_adjust_angle.
  rewrite (get_spread_r _ _ "min_angle" (VNumber lo)) by done.
  by rewrite (get_spread_r _ _ "max_angle" (VNumber hi)) by done.
Qed.

(** C1. A target whose angle is NaN is joined with its limit record and
    sent with the angle NaN, outside the record's range [-10, 10]. *)
Theorem move_joint_nan_angle (ip : string) :
  numeric_bounds (Examples.limit_1_left ip) (Fin (-10)) (Fin 10)
  /\ outbound [Human.Motor "1" "left" NaN] [Examples.limit_1_left ip]
     = [Human.Motor "1" "left" NaN]
  /\ (exists r',
        Human.move_joint [Human.Motor "1" "left" NaN]
          (Examples.open_robot [Examples.limit_1_left ip]) = Ok r'
        /\ sent r' = [Envelope "move_joint"
                        (PayloadList [Human.Motor "1" "left" NaN])])
  /\ within NaN (Fin (-10)) (Fin 10) = false.
Proof.
  assert (Hout : outbound [Human.Motor "1" "left" NaN] [Examples.limit_1_left ip]
                 = [Human.Motor "1" "left" NaN]) by (by vm_compute).
  split_and!; [by vm_compute|done| |done].
  destruct (move_joint_open [Human.Motor "1" "left" NaN]
              (Examples.open_robot [Examples.limit_1_left ip]))
    as (r' & -> & Hsent & _); [done..|].
  exists r'. split; [done|]. rewrite Hsent. simpl. by rewrite Hout.
Qed.

Lemma targets_cons a args limits :
  targets (a :: args) limits =
  (spread (Human.normalize a) <$>
     filter (λ l, Human.same_joint (Human.normalize a) l = true) limits)
  ++ targets args limits.
Proof. unfold targets. by rewrite fmap_cons, join_cons. Qed.

Lemma outbound_cons a args limits :
  outbound (a :: args) limits = outbound [a] limits ++ outbound args limits.
Proof.
  unfold outbound. rewrite !targets_cons, !fmap_app.
  replace (targets [] limits) with (@nil obj) by done.
  simpl. by rewrite app_nil_r.
Qed.

Lemma has_limit_false a limits :
  has_limit limits a = false ->
  filter (λ l, Human.same_joint (Human.normalize a) l = true) limits = [].
Proof.
  unfold has_limit. induction limits as [|l limits IH]; [done|]. simpl.
  intros [Hl Hrest]%orb_false_elim.
  rewrite filter_cons, decide_False by congruence. auto.
Qed.

Lemma outbound_unmatched a limits :
  has_limit limits a = false -> outbound [a] limits = [].
Proof.
  intros Hno. unfold outbound. rewrite targets_cons, has_limit_false by done.
  done.
Qed.

(** Targets without a limit record add nothing to the list. *)
Lemma outbound_filter args limits :
  outbound args limits =
  outbound (filter (λ a, has_limit limits a = true) args) limits.
Proof.
  induction args as [|a args IH]; [done|].
  rewrite filter_cons. destruct (has_limit limits a) eqn:E.
  - rewrite decide_True by done.
    by rewrite outbound_cons, (outbound_cons a (filter _ _)), IH.
  - rewrite decide_False by done.
    by rewrite outbound_cons, outbound_unmatched, IH.
Qed.

Lemma outbound_all_unmatched args limits :
  (forall a, a ∈ args -> has_limit limits a = false) ->
  outbound args limits = [].
Proof.
  induction args as [|a args IH]; [done|]. intros Hno.
  rewrite outbound_cons, outbound_unmatched, IH; [done| |];
    intros; apply Hno; set_solver.
Qed.

(** C3. The batch of P3 sends the single entry
    [{no: "1", orientation: "left", angle: 10}], from Human and from Motor
    alike. In general the targets without a limit record contribute
    nothing, every entry sent stems from a target and a record that match
    and carries the angle [cover_param] returned, and a batch in which
    nothing matches returns without a send, a timer or an exception. *)
Theorem partial_match_drop :
  (forall ip r, ws_open r = true -> motor_limits r = [Examples.limit_1_left ip] ->
     let batch := [Human.Motor "1" "left" (Fin 99); Human.Motor "99" "left" (Fin 5)] in
     let frame := Envelope "move_joint" (PayloadList [Human.Motor "1" "left" (Fin 10)]) in
     (exists r', Human.move_joint batch r = Ok r' /\ sent r' = sent r ++ [frame])
     /\ (exists r', Motor.move_joint batch r = Ok r' /\ sent r' = sent r ++ [frame]))
  /\ (forall args limits,
        outbound args limits =
        outbound (filter (λ a, has_limit limits a = true) args) limits)
  /\ (forall args limits e, e ∈ outbound args limits ->
        exists a l, a ∈ args /\ l ∈ limits /\ Human.same_joint a l = true
          /\ e = (Human.adjust (spread (Human.normalize a) l)).1
          /\ get e "angle" =
               (cover_param (get (spread (Human.normalize a) l) "angle") "angle"
                  (get l "min_angle") (get l "max_angle")).1)
  /\ (forall args r, motor_limits r ≠ [] ->
        (forall a, a ∈ args -> has_limit (motor_limits r) a = false) ->
        Human.move_joint args r
          = Ok (console_write [LogMotorLimits (motor_limits r)] r)
        /\ Motor.move_joint args r = Ok r).
Proof.
  split_and!.
  - intros ip r Hopen Hlim batch frame.
    assert (Hout : outbound batch [Examples.limit_1_left ip]
                   = [Human.Motor "1" "left" (Fin 10)]) by (by vm_compute).
    split.
    + destruct (move_joint_open batch r) as (r' & Hr' & Hsent & _);
        [done|by rewrite Hlim|].
      exists r'. split; [done|]. by rewrite Hsent, Hlim, Hout.
    + rewrite motor_move_joint_unfold, Hlim, Hout.
      unfold websocket_send. simpl. rewrite Hopen. by eexists.
  - apply outbound_filter.
  - intros args limits e (a & l & Ha & Hl & Hm & ->)%elem_of_outbound.
    exists a, l. split_and!; try done.
    rewrite get_adjust_angle.
    rewrite (get_spread_bound a l "min_angle"), (get_spread_bound a l "max_angle");
      [done|unfold entry_fields; set_solver..].
  - intros args r Hlim Hno.
    rewrite move_joint_unfold, motor_move_joint_unfold.
    rewrite (outbound_all_unmatched args (motor_limits r)) by done.
    by destruct (motor_limits r).
Qed.

Lemma key_of_normalize a : key_of (Human.normalize a) = key_of a.
Proof.
  unfold key_of. rewrite !get_normalize; [done| |]; unfold entry_fields; set_solver.
Qed.

Lemma same_joint_key a l ka kl :
  key_of a = Some ka -> key_of l = Some kl ->
  Human.same_joint a l = true <-> ka = kl.
Proof.
  unfold key_of, Human.same_joint.
  destruct (get a "no") as [| | |n1], (get a "orientation") as [| | |o1];
    try done.
  destruct (get l "no") as [| | |n2], (get l "orientation") as [| | |o2];
    try done.
  intros [= <-] [= <-]. simpl.
  rewrite andb_true_iff, !String.eqb_eq. naive_solver.
Qed.

Lemma filter_none {A} (P : A -> Prop) `{forall x, Decision (P x)} (xs : list A) :
  (forall x, x ∈ xs -> ¬ P x) -> filter P xs = [].
Proof.
  induction xs as [|x xs IH]; [done|]. intros Hno.
  rewrite filter_cons_False by (apply Hno; set_solver).
  apply IH. intros y Hy. apply Hno. set_solver.
Qed.

Lemma matches_unique a limits :
  unique_keys limits -> is_Some (key_of a) ->
  length (filter (λ l, Human.same_joint a l = true) limits) <= 1.
Proof.
  intros [Hkeys Hnodup] [ka Hka].
  induction limits as [|l limits IH]; [simpl; lia|].
  rewrite fmap_cons in Hnodup. apply NoDup_cons in Hnodup as [Hfresh Hnodup].
  destruct (Hkeys l) as [kl Hkl]; [set_solver|].
  rewrite filter_cons. destruct (decide (Human.same_joint a l = true)) as [Hm|Hm].
  - apply (same_joint_key a l ka kl) in Hm as ->; [|done..].
    rewrite filter_none; [simpl; lia|]. intros l' Hl' Hm'.
    destruct (Hkeys l') as [kl' Hkl']; [set_solver|].
    apply (same_joint_key a l' kl kl') in Hm' as <-; [|done..].
    apply Hfresh. rewrite Hkl, <- Hkl'. by apply list_elem_of_fmap_2.
  - apply IH; [|done]. intros l' Hl'. apply Hkeys. set_solver.
Qed.

Lemma outbound_single_length a limits :
  length (outbound [a] limits) =
  length (filter (λ l, Human.same_joint a l = true) limits).
Proof.
  unfold outbound. rewrite targets_cons. unfold targets at 1. simpl.
  unfold Human.join. simpl. rewrite app_nil_r, !length_fmap.
  by rewrite (list_filter_iff _ (λ l, Human.same_joint a l = true))
    by (intros l; by rewrite same_joint_normalize).
Qed.

End DispatcherProperties.

(** ** The streaming send and the timer queue *)

Section EventLoopProperties.
Context `{Runtime}.
Import EventLoop Traces.

Implicit Types (r : robot) (message : envelope) (args limits : list obj).

Ltac robot_eq := repeat (f_equal; try done; try lia).

Lemma websocket_send_open message r :
  ws_open r = true ->
  websocket_send message r = Ok (set_retry_count 0 (ws_send message r)).
Proof. intros Hopen. unfold websocket_send. by rewrite Hopen. Qed.

Lemma websocket_send_first message r :
  ws_open r = false -> retry_count r = 0 -> timers r = [] ->
  websocket_send message r = Ok (waiting message r 1).
Proof.
  intros Hopen Hcount Htimers. unfold websocket_send, waiting.
  rewrite Hopen, Hcount. simpl. unfold setTimeout, console_write. simpl.
  rewrite Htimers, Hopen. robot_eq.
Qed.

Section AnyClass.
Variable move_joint : list obj -> robot -> result robot.

Lemma fire_waiting message r c :
  1 <= c -> c < 5 ->
  fire move_joint (waiting message r c) = Ok (waiting message r (S c)).
Proof.
  intros Hlo Hhi. unfold fire, waiting. cbn [timers next_timer run].
  unfold websocket_send, begin_callback, setTimeout, console_write,
    set_retry_count.
  cbn [baseUrl ws_open retry_count motor_limits sent requests timers clock
       console app].
  replace (c =? 5)%nat with false by (symmetry; apply Nat.eqb_neq; lia).
  rewrite seq_S, fmap_app, app_assoc. cbn [fmap list_fmap Nat.add].
  robot_eq.
Qed.

Lemma fire_waiting_last message r :
  fire move_joint (waiting message r 5) = Throw max_retry_error.
Proof. done. Qed.

Lemma fire_n_waiting message r k c :
  1 <= c -> c + k <= 5 ->
  fire_n move_joint k (waiting message r c) = Ok (waiting message r (c + k)).
Proof.
  revert c. induction k as [|k IH]; intros c Hlo Hhi.
  - by rewrite Nat.add_0_r.
  - cbn [fire_n]. rewrite fire_waiting by lia. rewrite IH by lia.
    robot_eq.
Qed.

Lemma websocket_send_retry message r :
  ws_open r = false -> retry_count r < 5 ->
  exists r', websocket_send message r = Ok r'
    /\ retry_count r' = retry_count r + 1
    /\ sent r' = sent r
    /\ timers r' = timers r ++ [(clock r + 1000, RetrySend message)].
Proof.
  intros Hopen Hcount. unfold websocket_send. rewrite Hopen.
  replace (retry_count r =? 5)%nat with false
    by (symmetry; apply Nat.eqb_neq; lia).
  by eexists.
Qed.

Lemma websocket_send_exhausted message r :
  ws_open r = false -> retry_count r = 5 ->
  websocket_send message r = Throw max_retry_error.
Proof. intros Hopen Hcount. unfold websocket_send. by rewrite Hopen, Hcount. Qed.

(** C4. On an open socket the envelope is transmitted at once and the
    counter is reset to 0. On a socket that is not open an attempt
    increments the counter and arms the next attempt 1000 ms later, and an
    attempt that finds the counter at 5 throws. So a send that starts with
    the counter at 0 and an empty timer queue, on a socket that never
    opens, is attempted at [t], [t+1000], ...: the first five attempts
    return, nothing is transmitted, and the sixth attempt throws. *)
Theorem stream_retry message r :
  (ws_open r = true ->
     exists r', websocket_send message r = Ok r'
       /\ sent r' = sent r ++ [message]
       /\ retry_count r' = 0
       /\ timers r' = timers r)
  /\ (ws_open r = false -> retry_count r < 5 ->
     exists r', websocket_send message r = Ok r'
       /\ retry_count r' = retry_count r + 1
       /\ sent r' = sent r
       /\ timers r' = timers r ++ [(clock r + 1000, RetrySend message)])
  /\ (ws_open r = false -> retry_count r = 5 ->
     websocket_send message r = Throw max_retry_error)
  /\ (ws_open r = false -> retry_count r = 0 -> timers r = [] ->
     exists r1, websocket_send message r = Ok r1
       /\ (forall k, k <= 4 -> exists rk,
             fire_n move_joint k r1 = Ok rk
             /\ retry_count rk = k + 1
             /\ sent rk = sent r
             /\ ws_open rk = false
             /\ clock rk = clock r + 1000 * k
             /\ timers rk = [(clock r + 1000 * (k + 1), RetrySend message)])
       /\ fire_n move_joint 5 r1 = Throw max_retry_error).
Proof.
  split_and!.
  - intros Hopen. rewrite websocket_send_open by done. by eexists.
  - apply websocket_send_retry.
  - apply websocket_send_exhausted.
  - intros Hopen Hcount Htimers. exists (waiting message r 1).
    split; [by apply websocket_send_first|]. split.
    + intros k Hk. exists (waiting message r (1 + k)).
      rewrite fire_n_waiting by lia. simpl.
      split_and!; try done; repeat f_equal; lia.
    + change 5 with (S 4) at 1. cbn [fire_n].
      rewrite (fire_waiting message r 1) by lia.
      cbn [fire_n]. rewrite (fire_waiting message r 2) by lia.
      cbn [fire_n]. rewrite (fire_waiting message r 3) by lia.
      cbn [fire_n]. rewrite (fire_waiting message r 4) by lia.
      cbn [fire_n]. by rewrite fire_waiting_last.
Qed.

End AnyClass.

(** Nothing the client does after the fetch writes to the cache. *)
Lemma websocket_send_limits message r r' :
  websocket_send message r = Ok r' -> motor_limits r' = motor_limits r.
Proof.
  unfold websocket_send.
  destruct (ws_open r); [by intros [= <-]|].
  destruct (retry_count r =? 5)%nat; [done|]. by intros [= <-].
Qed.

Lemma move_joint_limits args r r' :
  Human.move_joint args r = Ok r' -> motor_limits r' = motor_limits r.
Proof.
  rewrite move_joint_unfold. cbn zeta.
  destruct (motor_limits r) as [|l ls] eqn:El; [by intros [= <-]|].
  destruct (outbound args (l :: ls)); [by intros [= <-]|].
  by intros ->%websocket_send_limits.
Qed.

Lemma fire_limits r r' :
  fire Human.move_joint r = Ok r' -> motor_limits r' = motor_limits r.
Proof.
  unfold fire. destruct (next_timer (timers r)) as [[[due t] rest]|];
    [|by intros [= <-]].
  destruct t; simpl.
  - by intros ->%websocket_send_limits.
  - by intros ->%move_joint_limits.
Qed.

Lemma fire_n_limits n r r' :
  fire_n Human.move_joint n r = Ok r' -> motor_limits r' = motor_limits r.
Proof.
  revert r. induction n as [|n IH]; intros r; simpl; [by intros [= <-]|].
  destruct (fire Human.move_joint r) as [r1|] eqn:E; [|done].
  intros ->%IH. by apply fire_limits.
Qed.

(** C8. The cache is the fetched table as it came. When that table has at
    most one record per compound key, so has the cache from then on, and
    each target with a string key joins with at most one record and adds
    at most one entry to the batch. *)
Theorem cache_unique_keys (t : nat) (res : response) (r : robot) args :
  unique_keys (data_data res) ->
  (forall a, a ∈ args -> is_Some (key_of a)) ->
  let r' := Human.limits_settled (Fulfilled t res) r in
  motor_limits r' = data_data res
  /\ (forall n rn, fire_n Human.move_joint n r' = Ok rn ->
        motor_limits rn = data_data res /\ unique_keys (motor_limits rn))
  /\ (forall a, a ∈ args ->
        length (filter (λ l, Human.same_joint a l = true) (motor_limits r')) <= 1
        /\ length (outbound [a] (motor_limits r')) <= 1)
  /\ length (outbound args (motor_limits r')) <= length args.
Proof.
  intros Huniq Hargs r'. subst r'. simpl. split_and!; try done.
  - intros n rn ->%fire_n_limits. by simpl.
  - intros a Ha. rewrite outbound_single_length.
    split; apply matches_unique; auto.
  - induction args as [|a args IH]; [done|].
    rewrite outbound_cons, length_app, outbound_single_length. simpl.
    assert (Hone : length (filter (λ l, Human.same_joint a l = true)
                             (data_data res)) <= 1).
    { apply matches_unique; [done|]. apply Hargs. set_solver. }
    assert (Hrest : length (outbound args (data_data res)) <= length args).
    { apply IH. intros. apply Hargs. set_solver. }
    lia.
Qed.


(** *** The readiness gate *)

Lemma move_joint_empty_cache args r :
  motor_limits r = [] -> timers r = [] ->
  Human.move_joint args r = Ok (polling args r 0).
Proof.
  intros Hlim Htimers. rewrite move_joint_unfold, Hlim. cbn zeta.
  unfold polling, setTimeout, console_write.
  cbn [baseUrl ws_open retry_count motor_limits sent requests timers clock
       console app replicate Nat.add].
  rewrite Hlim, Htimers. robot_eq.
Qed.

Lemma fire_polling args r n :
  fire Human.move_joint (polling args r n) = Ok (polling args r (S n)).
Proof.
  unfold fire, polling. cbn [timers next_timer run].
  rewrite move_joint_unfold. cbn zeta.
  unfold begin_callback, setTimeout, console_write.
  cbn [baseUrl ws_open retry_count motor_limits sent requests timers clock
       console app].
  replace (S n + 1) with (S (n + 1)) by lia.
  rewrite replicate_S_end, app_assoc. robot_eq.
Qed.

Lemma fire_n_polling args r k n :
  fire_n Human.move_joint k (polling args r n) = Ok (polling args r (n + k)).
Proof.
  revert n. induction k as [|k IH]; intros n.
  - by rewrite Nat.add_0_r.
  - cbn [fire_n]. rewrite fire_polling, IH. robot_eq.
Qed.

Lemma fire_polling_ready args r n limits :
  limits ≠ [] -> ws_open r = true ->
  exists r', fire Human.move_joint (set_motor_limits limits (polling args r n))
             = Ok r'
    /\ sent r' = sent r ++ move_joint_frames (outbound args limits)
    /\ timers r' = []
    /\ clock r' = clock r + 500 * (n + 1).
Proof.
  intros Hlim Hopen. unfold fire, polling, set_motor_limits.
  cbn [baseUrl ws_open retry_count motor_limits sent requests timers clock
       console next_timer run].
  match goal with |- context [Human.move_joint args ?s] =>
    destruct (move_joint_open args s) as (r' & -> & Hs & Ht & _ & _ & Hc);
      [done..|]
  end.
  exists r'. split; [done|]. rewrite Hs, Ht, Hc.
  unfold begin_callback. cbn [sent timers clock motor_limits].
  split_and!; [done..|lia].
Qed.

Lemma move_joint_reschedules args r :
  motor_limits r = [] ->
  exists r0, Human.move_joint args r = Ok r0
    /\ sent r0 = sent r
    /\ motor_limits r0 = []
    /\ retry_count r0 = retry_count r
    /\ timers r0 = timers r ++ [(clock r + 500, RetryMoveJoint args)].
Proof.
  intros Hlim. rewrite move_joint_unfold, Hlim. by eexists.
Qed.

(** C2. A dispatch that finds the cache empty sends nothing and does not
    throw: it arms itself again 500 ms later with the whole batch. With no
    other timer pending, every retry that finds the cache empty does the
    same, without bound. The first retry that finds the cache filled, on
    an open socket, ends the chain: it sends one [move_joint] frame
    computed from the original batch when some target has a limit record,
    and nothing when none has. The last part holds for a retry in any
    state of the connection. *)
Theorem readiness_gate args r :
  motor_limits r = [] ->
  (exists r0, Human.move_joint args r = Ok r0
     /\ sent r0 = sent r
     /\ motor_limits r0 = []
     /\ retry_count r0 = retry_count r
     /\ timers r0 = timers r ++ [(clock r + 500, RetryMoveJoint args)])
  /\ (timers r = [] ->
     exists r0, Human.move_joint args r = Ok r0
       /\ forall n, exists rn,
            fire_n Human.move_joint n r0 = Ok rn
            /\ sent rn = sent r
            /\ motor_limits rn = []
            /\ timers rn = [(clock r + 500 * (n + 1), RetryMoveJoint args)]
            /\ forall limits, limits ≠ [] -> ws_open r = true ->
                 exists r',
                   fire Human.move_joint (set_motor_limits limits rn) = Ok r'
                   /\ sent r' = sent r ++ move_joint_frames (outbound args limits)
                   /\ timers r' = []
                   /\ clock r' = clock r + 500 * (n + 1))
  /\ (forall s, ws_open s = true -> motor_limits s ≠ [] ->
     exists s', run Human.move_joint (RetryMoveJoint args) s = Ok s'
       /\ sent s' = sent s
                   ++ move_joint_frames (outbound args (motor_limits s))
       /\ timers s' = timers s).
Proof.
  intros Hlim. split; [by apply move_joint_reschedules|]. split; last first.
  { intros s Hopen Hfull.
    destruct (move_joint_open args s) as (s' & Hs' & Hsent & Ht & _); [done..|].
    by exists s'. }
  intros Htimers. exists (polling args r 0).
  split; [by apply move_joint_empty_cache|].
  intros n. exists (polling args r n).
  rewrite fire_n_polling. split_and!; try done.
  intros limits Hne Hopen. by apply fire_polling_ready.
Qed.

Lemma fire_n_idle (move_joint : list obj -> robot -> result robot) n r :
  timers r = [] -> fire_n move_joint n r = Ok r.
Proof.
  intros Hidle. induction n as [|n IH]; [done|].
  cbn [fire_n]. unfold fire. by rewrite Hidle.
Qed.

(** A batch without any limit record is never sent, on any engine: the
    retry that finds the cache filled sends nothing and arms nothing. *)
Lemma unmatched_batch_silent :
  exists r0 r1,
    Human.move_joint [Human.Motor "99" "left" (Fin 5)] (Examples.open_robot [])
      = Ok r0
    /\ fire Human.move_joint
         (set_motor_limits [Examples.limit_1_left "x"] r0) = Ok r1
    /\ sent r1 = [] /\ timers r1 = []
    /\ forall n, fire_n Human.move_joint n r1 = Ok r1.
Proof.
  do 2 eexists. split; [done|]. split; [by vm_compute|].
  split_and!; [done..|]. intros n. by apply fire_n_idle.
Qed.

(** A table with two records for one key is cached as it is, on any
    engine, and one target then yields two entries. *)
Lemma doubled_table_cached (t : nat) (r : robot) :
  let r' := Human.limits_settled
              (Fulfilled t (Response 200 Examples.doubled_table)) r in
  motor_limits r' = Examples.doubled_table
  /\ key_of <$> motor_limits r' = [Some ("1", "left"); Some ("1", "left")]
  /\ outbound [Human.Motor "1" "left" (Fin 15)] (motor_limits r')
     = [Human.Motor "1" "left" (Fin 10); Human.Motor "1" "left" (Fin 15)].
Proof. split_and!; [done|done|by vm_compute]. Qed.

End EventLoopProperties.

(** ** The control-plane request *)

(** C9. A request built from method, url, data and params is issued with
    the timeout 5000; [http_request] issues exactly one request whatever
    the endpoint does, and arms no timer; when the endpoint never answers
    the promise it returns is rejected with a timeout error 5000 ms after
    the call. *)
Theorem control_request_timeout (config : AxiosRequestConfig) (r : robot) :
  dom config ⊆ request_fields ->
  request_config config r !! "timeout" = Some (CfgMillis 5000)
  /\ (forall server,
        requests (http_request config server r).1
          = requests r ++ [request_config config r]
        /\ timers (http_request config server r).1 = timers r
        /\ sent (http_request config server r).1 = sent r)
  /\ (http_request config NeverAnswers r).2
       = Rejected (clock r + 5000) TimeoutError.
Proof.
  intros Hshape.
  assert (Hfree : config !! "timeout" = None).
  { apply not_elem_of_dom. unfold request_fields in Hshape. set_solver. }
  assert (Htimeout : request_config config r !! "timeout" = Some (CfgMillis 5000)).
  { unfold request_config. rewrite lookup_union_r by done. by simplify_map_eq. }
  split_and!; [done|done|].
  unfold http_request, axios_request, timeout_of. simpl. by rewrite Htimeout.
Qed.

(** ** Motor commands *)

(** The guard: a motor number that parses above 8 is logged, and nothing
    else happens. *)
Lemma motor_guard_rejects (no orientation : string) (r : robot) :
  number_lt (Fin 8) (parseInt no) = true ->
  Motor.enable_motor no orientation r = Ok (console_write [LogMotorOutOfRange no] r)
  /\ Motor.disable_motor no orientation r
     = Ok (console_write [LogMotorOutOfRange no] r).
Proof. intros Hbig. unfold Motor.enable_motor, Motor.disable_motor. by rewrite Hbig. Qed.

(** Every other motor number goes to the socket, whatever it is. *)
Lemma motor_guard_passes (no orientation : string) (r : robot) :
  number_lt (Fin 8) (parseInt no) = false ->
  Motor.enable_motor no orientation r
    = websocket_send (Motor.motor_command "enable_motor" no orientation) r
  /\ Motor.disable_motor no orientation r
    = websocket_send (Motor.motor_command "disable_motor" no orientation) r.
Proof. intros Hok. unfold Motor.enable_motor, Motor.disable_motor. by rewrite Hok. Qed.

(** C10. The guard lets the motor numbers "-1" and "abc" through: on an
    open socket the enable and disable envelopes for them are sent. *)
Theorem motor_guard_below_range (orientation : string) (limits : list obj) :
  parseInt "-1" = Fin (inject_Z (-1)) /\ parseInt "abc" = NaN
  /\ (exists r', Motor.enable_motor "-1" orientation (Examples.open_robot limits) = Ok r'
        /\ sent r' = [Motor.motor_command "enable_motor" "-1" orientation])
  /\ (exists r', Motor.disable_motor "-1" orientation (Examples.open_robot limits) = Ok r'
        /\ sent r' = [Motor.motor_command "disable_motor" "-1" orientation])
  /\ (exists r', Motor.enable_motor "abc" orientation (Examples.open_robot limits) = Ok r'
        /\ sent r' = [Motor.motor_command "enable_motor" "abc" orientation]).
Proof. split_and!; try done; by eexists. Qed.

(** * Closed instances

    The statements above at the worked inputs, on the engine of
    [Examples]. *)

Section Instances.
#[local] Existing Instance Examples.engine.
Import EventLoop Examples.

Lemma cover_param_clamp_at_99 :
  number_le (Fin (-10)) (Fin 10) = true
  /\ (cover_param (VNumber (Fin 99)) "angle"
        (VNumber (Fin (-10))) (VNumber (Fin 10))).1 = VNumber (Fin 10)
  /\ (cover_param VUndefined "angle"
        (VNumber (Fin (-10))) (VNumber (Fin 10))).1 = VNumber (Fin 0).
Proof.
  split; [reflexivity|].
  exact (cover_param_clamp (Fin 99) (Fin (-10)) (Fin 10) "angle" eq_refl).
Defined.

Lemma outbound_entry_fields_at_batch :
  Human.Motor "1" "left" (Fin 10) ∈ outbound batch [limit_1_left "x"]
  /\ ("min_angle" ∉ dom (Human.Motor "1" "left" (Fin 10)))
  /\ ("max_angle" ∉ dom (Human.Motor "1" "left" (Fin 10)))
  /\ ("ip" ∉ dom (Human.Motor "1" "left" (Fin 10)))
  /\ dom (Human.Motor "1" "left" (Fin 10)) = entry_fields.
Proof.
  assert (Hin : Human.Motor "1" "left" (Fin 10) ∈ outbound batch [limit_1_left "x"]).
  { replace (outbound batch [limit_1_left "x"])
      with [Human.Motor "1" "left" (Fin 10)] by (vm_compute; reflexivity).
    apply list_elem_of_here. }
  split; [exact Hin|].
  destruct (outbound_entry_fields batch [limit_1_left "x"] _ Hin)
    as (Hmin & Hmax & Hip & Hdom).
  split_and!; [done..|]. apply Hdom.
  intros l ->%list_elem_of_singleton. unfold limit_1_left.
  by rewrite dom_JointLimit.
Defined.

Lemma partial_match_drop_at_batch :
  (exists r', Human.move_joint batch (open_robot [limit_1_left "x"]) = Ok r'
     /\ sent r' = [clamped_frame])
  /\ (exists r', Motor.move_joint batch (open_robot [limit_1_left "x"]) = Ok r'
     /\ sent r' = [clamped_frame])
  /\ Human.move_joint [Human.Motor "99" "left" (Fin 5)]
       (open_robot [limit_1_left "x"])
     = Ok (console_write [LogMotorLimits [limit_1_left "x"]]
             (open_robot [limit_1_left "x"])).
Proof.
  destruct partial_match_drop as (Hbatch & _ & _ & Hnone).
  destruct (Hbatch "x" (open_robot [limit_1_left "x"]) eq_refl eq_refl)
    as [Hhuman Hmotor].
  split; [exact Hhuman|]. split; [exact Hmotor|].
  apply (Hnone [Human.Motor "99" "left" (Fin 5)] (open_robot [limit_1_left "x"])).
  - discriminate.
  - intros a ->%list_elem_of_singleton. reflexivity.
Defined.

Lemma stream_retry_at_fresh :
  (exists r1,
     websocket_send clamped_frame fresh_robot = Ok r1
     /\ (exists r5, fire_n Human.move_joint 4 r1 = Ok r5
           /\ retry_count r5 = 5 /\ sent r5 = [] /\ clock r5 = 4000
           /\ timers r5 = [(5000, RetrySend clamped_frame)])
     /\ fire_n Human.move_joint 5 r1 = Throw max_retry_error)
  /\ (exists r', websocket_send clamped_frame (open_robot []) = Ok r'
        /\ sent r' = [clamped_frame] /\ retry_count r' = 0 /\ timers r' = []).
Proof.
  destruct (stream_retry Human.move_joint clamped_frame fresh_robot)
    as (_ & _ & _ & Hclosed).
  destruct (stream_retry Human.move_joint clamped_frame (open_robot []))
    as (Hopen & _).
  split; [|exact (Hopen eq_refl)].
  destruct (Hclosed eq_refl eq_refl eq_refl) as (r1 & Hr1 & Hk & Hthrow).
  exists r1. split; [exact Hr1|]. split; [|exact Hthrow].
  destruct (Hk 4) as (r5 & Hr5 & Hcount & Hsent & _ & Hclock & Htimers); [lia|].
  exists r5. split_and!; [exact Hr5|exact Hcount|exact Hsent|exact Hclock|exact Htimers].
Defined.

Lemma readiness_gate_at_batch :
  exists r0 r2 r',
    Human.move_joint batch (open_robot []) = Ok r0
    /\ fire_n Human.move_joint 2 r0 = Ok r2
    /\ sent r2 = [] /\ timers r2 = [(1500, RetryMoveJoint batch)]
    /\ fire Human.move_joint (set_motor_limits [limit_1_left "x"] r2) = Ok r'
    /\ sent r' = [clamped_frame] /\ timers r' = [] /\ clock r' = 1500.
Proof.
  destruct (readiness_gate batch (open_robot []) eq_refl) as (_ & Hchain & _).
  destruct (Hchain eq_refl) as (r0 & Hr0 & Hpoll).
  destruct (Hpoll 2) as (r2 & Hr2 & Hsent & _ & Htimers & Hready).
  destruct (Hready [limit_1_left "x"]) as (r' & Hr' & Hs & Ht & Hc);
    [discriminate|reflexivity|].
  exists r0, r2, r'.
  split_and!; [exact Hr0|exact Hr2|exact Hsent|exact Htimers|exact Hr'
              | |exact Ht|exact Hc].
  rewrite Hs. reflexivity.
Defined.

(** The gate of C2 on a batch that has no limit record: the cache fills,
    the retry runs, and no frame is sent, then or later. *)
Lemma readiness_gate_no_frame :
  exists r0 r1,
    Human.move_joint [Human.Motor "99" "left" (Fin 5)] (open_robot []) = Ok r0
    /\ fire Human.move_joint (set_motor_limits [limit_1_left "x"] r0) = Ok r1
    /\ sent r1 = [] /\ timers r1 = []
    /\ forall n, fire_n Human.move_joint n r1 = Ok r1.
Proof. exact unmatched_batch_silent. Qed.

Lemma unique_keys_two :
  unique_keys [limit_1_left "x"; JointLimit "2" "left" (Fin (-5)) (Fin 5) "y"].
Proof.
  split.
  - intros l [->|[->|[]%elem_of_nil]%elem_of_cons]%elem_of_cons; by eexists.
  - apply (bool_decide_unpack _). vm_compute. exact I.
Defined.

Lemma cache_unique_keys_at_batch :
  let table := [limit_1_left "x"; JointLimit "2" "left" (Fin (-5)) (Fin 5) "y"] in
  let r' := Human.limits_settled (Fulfilled 50 (Response 200 table)) fresh_robot in
  unique_keys table
  /\ motor_limits r' = table
  /\ length (outbound batch (motor_limits r')) <= 2.
Proof.
  intros table r'. split; [exact unique_keys_two|].
  destruct (cache_unique_keys 50 (Response 200 table) fresh_robot batch
              unique_keys_two) as (Hcache & _ & _ & Hlen).
  - intros a [->|[->|[]%elem_of_nil]%elem_of_cons]%elem_of_cons; by eexists.
  - split; [exact Hcache|exact Hlen].
Defined.

(** The invariant of C8 on a table that reports one joint twice: both
    records are cached, and the one target is sent twice, clamped to each
    range in turn. *)
Lemma cache_duplicate_keys :
  let r' := Human.limits_settled (Fulfilled 50 (Response 200 doubled_table))
              fresh_robot in
  motor_limits r' = doubled_table
  /\ key_of <$> motor_limits r' = [Some ("1", "left"); Some ("1", "left")]
  /\ outbound [Human.Motor "1" "left" (Fin 15)] (motor_limits r')
     = [Human.Motor "1" "left" (Fin 10); Human.Motor "1" "left" (Fin 15)].
Proof. exact (doubled_table_cached 50 fresh_robot). Qed.

(** The end-to-end scenario of the spec: the limit table arrives 50 ms
    after a dispatch of [{no: "1", orientation: "left", angle: 50}]; nothing
    is sent before, and the retry at 500 ms sends the clamped entry. *)
Example end_to_end :
  exists r0 r1,
    Human.move_joint [Human.Motor "1" "left" (Fin 50)] (open_robot []) = Ok r0
    /\ sent r0 = []
    /\ fire Human.move_joint
         (Human.limits_settled
            (axios_request (request_config Human.get_motor_limit_list r0)
               (Answers 50 200 [limit_1_left "x"]) 0) r0) = Ok r1
    /\ sent r1 = [clamped_frame] /\ clock r1 = 500 /\ timers r1 = [].
Proof. do 2 eexists. split; [done|]. split; [done|]. by vm_compute. Qed.

Example parseInt_examples :
  parseInt "8" = Fin (inject_Z 8) /\ parseInt " 12px" = Fin (inject_Z 12)
  /\ parseInt "0x1f" = Fin (inject_Z 31) /\ parseInt "8.9" = Fin (inject_Z 8)
  /\ parseInt "-1" = Fin (inject_Z (-1)) /\ parseInt "" = NaN
  /\ parseInt "abc" = NaN.
Proof. by split_and!. Qed.

Lemma control_request_timeout_at_limit_list :
  dom Human.get_motor_limit_list ⊆ request_fields
  /\ (http_request Human.get_motor_limit_list NeverAnswers fresh_robot).2
     = Rejected 5000 TimeoutError
  /\ length (requests (http_request Human.get_motor_limit_list NeverAnswers
                         fresh_robot).1) = 1.
Proof.
  assert (Hshape : dom Human.get_motor_limit_list ⊆ request_fields).
  { unfold Human.get_motor_limit_list, request_fields. set_solver. }
  split; [exact Hshape|].
  destruct (control_request_timeout Human.get_motor_limit_list fresh_robot Hshape)
    as (_ & Hone & Hfail).
  split; [exact Hfail|].
  destruct (Hone NeverAnswers) as (-> & _). reflexivity.
Defined.

End Instances.

(** * Further properties *)

Import Facade Observations.

(** ** More on the clamping primitive *)

Section CoverParamMore.
Context `{Runtime}.

(** A number within the thresholds, and NaN, come back as they are and
    without a warning. *)
Lemma cover_param_silent (v lo hi : number) (name : string) :
  number_lt hi v = false -> number_lt v lo = false ->
  cover_param (VNumber v) name (VNumber lo) (VNumber hi) = (VNumber v, []).
Proof.
  intros Hhi Hlo. unfold cover_param, gt, lt, loose_eq, ToNumber.
  by rewrite Hhi, Hlo.
Qed.

Lemma nan_or_not (n : number) : n = NaN \/ n ≠ NaN.
Proof. destruct n; auto. Qed.

Lemma within_silent (v lo hi : number) :
  within v lo hi = true -> number_lt hi v = false /\ number_lt v lo = false.
Proof. intros. split; number_cases. Qed.

(** X1. Clamping is idempotent: what [cover_param] returned for a number
    or for undefined passes a second call, with the same thresholds,
    unchanged and without a warning. *)
Theorem cover_param_idempotent (v lo hi : number) (name : string) :
  number_le lo hi = true ->
  let once u := (cover_param u name (VNumber lo) (VNumber hi)).1 in
  cover_param (once (VNumber v)) name (VNumber lo) (VNumber hi)
    = (once (VNumber v), [])
  /\ cover_param (once VUndefined) name (VNumber lo) (VNumber hi)
    = (once VUndefined, []).
Proof.
  intros Hle once. subst once.
  assert (Hfix : forall n, cover_param (VNumber (clamp n lo hi)) name
                             (VNumber lo) (VNumber hi)
                           = (VNumber (clamp n lo hi), [])).
  { intros n. destruct (nan_or_not n) as [->|Hn].
    - replace (clamp NaN lo hi) with NaN by (by destruct lo, hi).
      apply cover_param_silent; by destruct lo, hi.
    - destruct (within_silent (clamp n lo hi) lo hi) as [? ?];
        [by apply clamp_within|]. by apply cover_param_silent. }
  cbn beta. split.
  - rewrite cover_param_number_clamp by done. apply Hfix.
  - rewrite cover_param_undefined, cover_param_number_clamp by done. apply Hfix.
Qed.

(** X2. With thresholds that are not NaN, a number draws no warning
    exactly when it lies within them or is NaN; a value that is undefined
    or null always draws the warning that 0 is used, before any other. *)
Theorem cover_param_warnings (v lo hi : number) (name : string) :
  lo ≠ NaN -> hi ≠ NaN ->
  ((cover_param (VNumber v) name (VNumber lo) (VNumber hi)).2 = []
     <-> v = NaN \/ within v lo hi = true)
  /\ (forall u, loose_eq u VUndefined = true ->
        exists rest, (cover_param u name (VNumber lo) (VNumber hi)).2
                     = WarnUndefined name u :: rest).
Proof.
  intros Hlo Hhi. split.
  - unfold cover_param, gt, lt, loose_eq, ToNumber.
    destruct (number_lt hi v) eqn:E1; simpl.
    + split; [by destruct (number_lt hi lo)|].
      intros [->|Hin]; [by destruct hi|].
      apply within_silent in Hin as [? ?]. congruence.
    + destruct (number_lt v lo) eqn:E2; simpl.
      * split; [done|]. intros [->|Hin]; [done|].
        apply within_silent in Hin as [? ?]. congruence.
      * split; [|done]. intros _.
        destruct (nan_or_not v) as [->|Hv]; [by left|right].
        clear -E1 E2 Hlo Hhi Hv. number_cases.
  - intros u Hu. unfold cover_param. rewrite Hu.
    destruct (gt _ _), (lt _ _); by eexists.
Qed.

(** X3. Thresholds given the wrong way round, [max < min]: every number
    but NaN comes back as [min]. *)
Theorem cover_param_inverted (v lo hi : number) (name : string) :
  number_lt hi lo = true -> v ≠ NaN ->
  (cover_param (VNumber v) name (VNumber lo) (VNumber hi)).1 = VNumber lo.
Proof.
  intros Hinv Hv. rewrite cover_param_number. cbn zeta.
  destruct (number_lt hi v) eqn:E1.
  - by rewrite Hinv.
  - replace (number_lt v lo) with true; [done|].
    symmetry. clear -Hinv Hv E1. number_cases.
Qed.

(** A threshold that is undefined is not enforced. *)
Lemma cover_param_unbounded (v : value) (name : string) :
  loose_eq v VUndefined = false ->
  cover_param v name VUndefined VUndefined = (v, []).
Proof.
  intros Hv. unfold cover_param. rewrite Hv.
  replace (gt v VUndefined) with false; [|by destruct v].
  replace (lt v VUndefined) with false; [done|].
  destruct v as [| |n|s]; try done; simpl.
  - by destruct n.
  - by destruct (StringToNumber s).
Qed.

(** X4. A threshold that is missing (undefined) is not enforced: with
    both missing every value but undefined and null comes back unchanged
    and without a warning; with one missing only the other one clamps. *)
Theorem cover_param_missing_threshold (name : string) :
  (forall v, loose_eq v VUndefined = false ->
     cover_param v name VUndefined VUndefined = (v, []))
  /\ (forall v lo,
        (cover_param (VNumber v) name (VNumber lo) VUndefined).1
        = VNumber (if number_lt v lo then lo else v))
  /\ (forall v hi,
        (cover_param (VNumber v) name VUndefined (VNumber hi)).1
        = VNumber (if number_lt hi v then hi else v)).
Proof.
  split_and!.
  - intros v Hv. by apply cover_param_unbounded.
  - intros v lo. unfold cover_param, gt, lt, loose_eq, ToNumber. simpl.
    by destruct (number_lt v lo).
  - intros v hi. unfold cover_param, gt, lt, loose_eq, ToNumber. simpl.
    destruct (number_lt hi v); simpl; [by destruct hi | by destruct v].
Qed.

End CoverParamMore.

(** ** More on the streaming send *)

Section StreamMore.
Context `{Runtime}.
Import EventLoop Traces.

Implicit Types (r : robot) (message : envelope) (args : list obj).

Lemma websocket_send_bound message r r' :
  retry_count r <= 5 -> websocket_send message r = Ok r' -> retry_count r' <= 5.
Proof.
  intros Hle. unfold websocket_send.
  destruct (ws_open r); [intros [= <-]; simpl; lia|].
  destruct (retry_count r =? 5)%nat eqn:E; [done|].
  apply Nat.eqb_neq in E. intros [= <-]. simpl. lia.
Qed.

Lemma move_joint_bound args r r' :
  retry_count r <= 5 -> Human.move_joint args r = Ok r' -> retry_count r' <= 5.
Proof.
  intros Hle. rewrite move_joint_unfold. cbn zeta.
  destruct (motor_limits r); [by intros [= <-]|].
  destruct (outbound args _); [by intros [= <-]|].
  by apply websocket_send_bound.
Qed.

Lemma fire_bound r r' :
  retry_count r <= 5 -> fire Human.move_joint r = Ok r' -> retry_count r' <= 5.
Proof.
  intros Hle. unfold fire.
  destruct (next_timer (timers r)) as [[[due t] rest]|]; [|by intros [= <-]].
  destruct t; simpl.
  - by apply websocket_send_bound.
  - by apply move_joint_bound.
Qed.

(** X5. The retry counter of a connection that starts at 5 or below, as
    every connection does, never exceeds 5: not after a send, a dispatch
    or a motor command, and not after any number of timers have fired. *)
Theorem retry_count_bounded r :
  retry_count r <= 5 ->
  (forall message r', websocket_send message r = Ok r' -> retry_count r' <= 5)
  /\ (forall args r', Human.move_joint args r = Ok r' -> retry_count r' <= 5)
  /\ (forall no orientation r',
        Motor.enable_motor no orientation r = Ok r'
        \/ Motor.disable_motor no orientation r = Ok r' ->
        retry_count r' <= 5)
  /\ (forall n r', fire_n Human.move_joint n r = Ok r' -> retry_count r' <= 5).
Proof.
  intros Hle. split_and!.
  - intros message r'. by apply websocket_send_bound.
  - intros args r'. by apply move_joint_bound.
  - intros no orientation r'. unfold Motor.enable_motor, Motor.disable_motor.
    destruct (number_lt _ _).
    + by intros [[= <-]|[= <-]].
    + intros [?|?]; by eapply websocket_send_bound.
  - intros n. revert r Hle. induction n as [|n IH]; intros r Hle r'.
    + by intros [= <-].
    + cbn [fire_n]. destruct (fire Human.move_joint r) as [r1|] eqn:E; [|done].
      apply IH. by eapply fire_bound.
Qed.

Lemma next_timer_perm (ts : list (nat * task)) t rest :
  next_timer ts = Some (t, rest) -> ts ≡ₚ t :: rest.
Proof.
  revert t rest. induction ts as [|t0 ts IH]; intros t rest; [done|].
  cbn [next_timer]. destruct (next_timer ts) as [[u rest']|] eqn:E.
  - destruct (u.1 <? t0.1)%nat; intros [= <- <-]; [|done].
    rewrite (IH u rest') by done. apply perm_swap.
  - intros [= <- <-]. destruct ts as [|t1 ts]; [done|].
    cbn [next_timer] in E. destruct (next_timer ts) as [[u rest']|]; [|done].
    by destruct (u.1 <? t1.1)%nat.
Qed.

Lemma websocket_send_conserves message r r' :
  websocket_send message r = Ok r' ->
  sent r' ++ pending (timers r') ≡ₚ (sent r ++ pending (timers r)) ++ [message]
  /\ sent r `prefix_of` sent r'
  /\ (only_sends (timers r) -> only_sends (timers r')).
Proof.
  unfold websocket_send. destruct (ws_open r).
  - intros [= <-]. simpl. split_and!; [|by apply prefix_app_r|done].
    rewrite <- !app_assoc. f_equiv. apply Permutation_app_comm.
  - destruct (retry_count r =? 5)%nat; [done|]. intros [= <-]. simpl.
    split_and!; [|done|].
    + unfold pending. by rewrite bind_app, app_assoc.
    + intros Hs t [Ht | ->%list_elem_of_singleton]%elem_of_app; [by apply Hs|].
      by eexists.
Qed.

(** X6. While only retries of sends are pending, no message is lost or
    doubled: after a send that returns, the messages transmitted and the
    messages awaiting a retry are those from before and the new one; after
    any number of timers have fired without an exception they are the same
    messages as before; and what was transmitted stays in place. *)
Theorem messages_conserved (move_joint : list obj -> robot -> result robot) r :
  only_sends (timers r) ->
  (forall message r', websocket_send message r = Ok r' ->
     sent r' ++ pending (timers r') ≡ₚ (sent r ++ pending (timers r)) ++ [message]
     /\ sent r `prefix_of` sent r')
  /\ (forall n r', fire_n move_joint n r = Ok r' ->
     sent r' ++ pending (timers r') ≡ₚ sent r ++ pending (timers r)
     /\ sent r `prefix_of` sent r'
     /\ only_sends (timers r')).
Proof.
  intros Honly. split.
  - intros message r' Hr'. by destruct (websocket_send_conserves _ _ _ Hr') as (?&?&?).
  - intros n. revert r Honly. induction n as [|n IH]; intros r Honly r'.
    + by intros [= <-].
    + cbn [fire_n]. destruct (fire move_joint r) as [r1|] eqn:E; [|done].
      intros Hn. unfold fire in E.
      destruct (next_timer (timers r)) as [[[due t] rest]|] eqn:Et;
        [|injection E as <-; by apply IH].
      apply next_timer_perm in Et.
      assert (Hrest : only_sends rest).
      { intros u Hu. apply Honly. rewrite Et. by right. }
      destruct (Honly (due, t)) as [message Hm]; [rewrite Et; by left|].
      simpl in Hm. subst t. cbn [run] in E.
      destruct (websocket_send_conserves _ _ _ E) as (Hperm & Hpre & Hkeep).
      destruct (IH r1 (Hkeep Hrest) r' Hn) as (Hperm' & Hpre' & Honly').
      split_and!; [|by etrans|done].
      rewrite Hperm', Hperm. simpl. rewrite <- app_assoc. f_equiv.
      unfold pending at 2. rewrite Et. rewrite bind_cons. simpl.
      apply Permutation_app_comm.
Qed.

Ltac timer_steps :=
  repeat first
    [ progress cbn [fire_n next_timer baseUrl ws_open retry_count motor_limits
                    sent requests timers clock console fst snd app Nat.eqb
                    Nat.add]
    | progress unfold fire, run, websocket_send, begin_callback, setTimeout,
        console_write, set_retry_count, ws_send, set_ws_open
    | match goal with
      | |- context [(?a <? ?b)%nat] =>
          first
            [ replace (a <? b)%nat with false
                by (symmetry; apply Nat.ltb_ge; lia)
            | replace (a <? b)%nat with true
                by (symmetry; apply Nat.ltb_lt; lia) ]
      end ].

(** X7. The limit of five failed attempts is shared by the sends of a
    connection. Two messages sent to a socket that never opens use it up
    together: the first is attempted three times, the second twice, and
    the third attempt of the second, 2000 ms after the calls, throws. *)
Theorem retry_count_shared
    (move_joint : list obj -> robot -> result robot) (m1 m2 : envelope) r :
  ws_open r = false -> retry_count r = 0 -> timers r = [] ->
  exists r1 r2 r5,
    websocket_send m1 r = Ok r1
    /\ websocket_send m2 r1 = Ok r2
    /\ fire_n move_joint 3 r2 = Ok r5
    /\ retry_count r5 = 5 /\ sent r5 = sent r
    /\ clock r5 = clock r + 2000
    /\ timers r5 = [(clock r + 2000, RetrySend m2); (clock r + 3000, RetrySend m1)]
    /\ fire_n move_joint 4 r2 = Throw max_retry_error.
Proof.
  destruct r as [url o c limits out reqs ts now con]. simpl.
  intros -> -> ->. do 3 eexists.
  split; [timer_steps; reflexivity|]. split; [timer_steps; reflexivity|].
  split; [timer_steps; reflexivity|]. cbn [retry_count sent clock timers].
  split_and!; [done|done|lia|repeat (f_equal; try lia)|].
  timer_steps. reflexivity.
Qed.

(** X8. Messages can overtake each other. A message sent while the socket
    is not open waits for its retry; a message sent after the socket has
    opened goes out at once, and the retry delivers the earlier message
    after it. *)
Theorem send_order_not_kept
    (move_joint : list obj -> robot -> result robot) (m1 m2 : envelope) r :
  ws_open r = false -> retry_count r < 5 -> timers r = [] ->
  exists r1 r2 r3,
    websocket_send m1 r = Ok r1
    /\ websocket_send m2 (set_ws_open true r1) = Ok r2
    /\ fire move_joint r2 = Ok r3
    /\ sent r2 = sent r ++ [m2]
    /\ sent r3 = sent r ++ [m2; m1]
    /\ timers r3 = [] /\ retry_count r3 = 0.
Proof.
  destruct r as [url o c limits out reqs ts now con]. simpl.
  intros -> Hc ->. unfold websocket_send at 1. cbn [ws_open retry_count].
  replace (c =? 5)%nat with false by (symmetry; apply Nat.eqb_neq; lia).
  do 3 eexists. split; [reflexivity|]. split; [reflexivity|].
  split; [reflexivity|]. simpl. by rewrite <- app_assoc.
Qed.

Lemma fire_single_open
    (move_joint : list obj -> robot -> result robot) message r due :
  ws_open r = true -> timers r = [(due, RetrySend message)] ->
  exists r', fire move_joint r = Ok r'
    /\ sent r' = sent r ++ [message]
    /\ retry_count r' = 0 /\ timers r' = []
    /\ clock r' = Nat.max (clock r) due.
Proof.
  intros Hopen Htimers. unfold fire. rewrite Htimers. cbn [next_timer run].
  unfold websocket_send, begin_callback. cbn [ws_open]. rewrite Hopen.
  by eexists.
Qed.

(** X9. Five failed attempts do not doom a message: when the socket opens
    before the sixth attempt, 5000 ms after the call, that attempt delivers
    the message and resets the counter. *)
Theorem sixth_attempt_delivers
    (move_joint : list obj -> robot -> result robot) (message : envelope) r :
  ws_open r = false -> retry_count r = 0 -> timers r = [] ->
  exists r1 r5 r6,
    websocket_send message r = Ok r1
    /\ fire_n move_joint 4 r1 = Ok r5
    /\ retry_count r5 = 5
    /\ fire move_joint (set_ws_open true r5) = Ok r6
    /\ sent r6 = sent r ++ [message]
    /\ retry_count r6 = 0 /\ timers r6 = []
    /\ clock r6 = clock r + 5000.
Proof.
  intros Hopen Hcount Htimers.
  destruct (fire_single_open move_joint message
              (set_ws_open true (waiting message r 5)) (clock r + 1000 * 5))
    as (r6 & Hr6 & Hsent & Hzero & Hnone & Hclock); [done..|].
  exists (waiting message r 1), (waiting message r 5), r6.
  split; [by apply websocket_send_first|].
  split; [by rewrite (fire_n_waiting move_joint message r 4 1) by lia|].
  split; [done|]. split; [done|]. split; [done|]. split; [done|].
  split; [done|]. rewrite Hclock. unfold waiting, set_ws_open.
  cbn [clock]. lia.
Qed.

End StreamMore.

(** ** More on the joint dispatcher *)

Section DispatcherMore.
Context `{Runtime}.
Import EventLoop Traces.

Implicit Types (args limits : list obj) (a l e : obj) (r : robot).

Lemma lookup_adjust motor (k : string) :
  k ∉ ({[ "angle"; "min_angle"; "max_angle"; "ip" ]} : gset string) ->
  (Human.adjust motor).1 !! k = motor !! k.
Proof.
  intros Hk. rewrite adjust_fst.
  rewrite !lookup_delete_ne, lookup_insert_ne by set_solver. done.
Qed.

(** X10. Where the fields of an outbound entry come from. Every field of
    the limit record other than [angle], [min_angle], [max_angle] and [ip]
    is forwarded with the record's value, the record's [no] and
    [orientation] included; the target contributes [no] and [orientation]
    only where the record has none, and none of its other fields; and when
    the record has an [angle] of its own, that angle is clamped and sent
    in place of the target's. *)
Theorem outbound_entry_provenance args limits e :
  e ∈ outbound args limits ->
  exists a l, a ∈ args /\ l ∈ limits /\ Human.same_joint a l = true
    /\ (forall k v, l !! k = Some v ->
          k ∉ ({[ "angle"; "min_angle"; "max_angle"; "ip" ]} : gset string) ->
          e !! k = Some v)
    /\ (forall k, l !! k = None -> k = "no" \/ k = "orientation" ->
          e !! k = Some (get a k))
    /\ (forall k, l !! k = None -> k ∉ entry_fields -> e !! k = None)
    /\ (forall v, l !! "angle" = Some v ->
          get e "angle" = (cover_param v "angle"
                             (get l "min_angle") (get l "max_angle")).1)
    /\ is_Some (e !! "angle").
Proof.
  intros (a & l & Ha & Hl & Hm & ->)%elem_of_outbound.
  exists a, l. split_and!; try done.
  - intros k v Hk Hout. rewrite lookup_adjust by done.
    unfold spread. by apply lookup_union_Some_l.
  - intros k Hk Hkey. rewrite lookup_adjust by (destruct Hkey as [->| ->]; set_solver).
    unfold spread. rewrite lookup_union_r by done.
    unfold Human.normalize. destruct Hkey as [->| ->]; by simplify_map_eq.
  - intros k Hk Hout.
    destruct (decide (k ∈ ({[ "min_angle"; "max_angle"; "ip" ]} : gset string)))
      as [Hdel|Hkeep].
    + apply not_elem_of_dom. rewrite dom_adjust. set_solver.
    + rewrite lookup_adjust by (unfold entry_fields in Hout; set_solver).
      unfold spread. rewrite lookup_union_r by done.
      apply not_elem_of_dom. by rewrite dom_normalize.
  - intros v Hv. rewrite get_adjust_angle.
    rewrite (get_spread_r _ _ "angle" v) by done.
    rewrite (get_spread_bound a l "min_angle"), (get_spread_bound a l "max_angle");
      [done|unfold entry_fields; set_solver..].
  - rewrite adjust_fst. rewrite !lookup_delete_ne by done.
    rewrite lookup_insert_eq. by eexists.
Qed.




Lemma filter_unique_match a l limits :
  unique_keys limits -> l ∈ limits -> Human.same_joint a l = true ->
  is_Some (key_of a) ->
  filter (λ l', Human.same_joint a l' = true) limits = [l].
Proof.
  intros [Hkeys Hnodup] Hl Hm [ka Hka].
  induction limits as [|l0 limits IH]; [by apply elem_of_nil in Hl|].
  rewrite fmap_cons in Hnodup. apply NoDup_cons in Hnodup as [Hfresh Hnodup].
  destruct (Hkeys l) as [kl Hkl]; [done|].
  apply (same_joint_key a l ka kl) in Hm as ->; [|done..].
  apply elem_of_cons in Hl as [<-|Hl].
  - rewrite filter_cons_True by (by apply (same_joint_key a l kl kl)).
    f_equal. apply filter_none. intros l' Hl' Hm'.
    destruct (Hkeys l') as [kl' Hkl']; [set_solver|].
    apply (same_joint_key a l' kl kl') in Hm' as <-; [|done..].
    apply Hfresh. rewrite Hkl, <- Hkl'. by apply list_elem_of_fmap_2.
  - destruct (Hkeys l0) as [k0 Hk0]; [set_solver|].
    rewrite filter_cons_False.
    + apply IH; [|done..]. intros l' Hl'. apply Hkeys. set_solver.
    + intros Hm0. apply (same_joint_key a l0 kl k0) in Hm0 as <-; [|done..].
      apply Hfresh. rewrite Hk0, <- Hkl. by apply list_elem_of_fmap_2.
Qed.

(** X13. [move_motor] end to end. With the socket open and a cache that
    has at most one record per key, among them the record of the motor
    with bounds [lo <= hi], [move_motor(no, orientation, x)] sends one
    frame with the single entry [{no, orientation, angle}], the angle
    being [x] clamped into the bounds, arms no timer and resets the
    counter. *)
Theorem move_motor_sends_clamped (no orientation ip : string) (x lo hi : number) r :
  ws_open r = true ->
  unique_keys (motor_limits r) ->
  JointLimit no orientation lo hi ip ∈ motor_limits r ->
  number_le lo hi = true ->
  exists r', move_motor no orientation (VNumber x) r = Ok r'
    /\ sent r' = sent r ++ [Envelope "move_joint"
                  (PayloadList [Human.Motor no orientation (clamp x lo hi)])]
    /\ timers r' = timers r /\ retry_count r' = 0.
Proof.
  intros Hopen Huniq Hl Hle. unfold move_motor.
  set (a := ({[ "no" := VString no; "orientation" := VString orientation;
                "angle" := VNumber x ]} : obj)).
  set (l := JointLimit no orientation lo hi ip) in *.
  assert (Hout : outbound [a] (motor_limits r)
                 = [Human.Motor no orientation (clamp x lo hi)]).
  { unfold outbound. rewrite targets_cons.
    replace (targets [] (motor_limits r)) with (@nil obj) by done.
    rewrite app_nil_r.
    rewrite (filter_unique_match (Human.normalize a) l); [|done|done| |].
    - simpl. f_equal. rewrite adjust_fst.
      replace (get (spread (Human.normalize a) l) "angle") with (VNumber x)
        by done.
      replace (get (spread (Human.normalize a) l) "min_angle") with (VNumber lo)
        by done.
      replace (get (spread (Human.normalize a) l) "max_angle") with (VNumber hi)
        by done.
      rewrite cover_param_number_clamp by done.
      generalize (clamp x lo hi). intros c. by vm_compute.
    - change (String.eqb no no && String.eqb orientation orientation = true).
      by rewrite !String.eqb_refl.
    - by eexists. }
  rewrite motor_move_joint_unfold.
  destruct (motor_limits r) as [|l0 ls] eqn:El; [by apply elem_of_nil in Hl|].
  rewrite Hout. unfold websocket_send. simpl. rewrite Hopen. by eexists.
Qed.

(** X14. The targets of a batch are joined one by one: the entries of a
    batch are the entries of its targets, each dispatched alone, in the
    order of the batch, and the entries of two batches in a row are those
    of their concatenation. *)
Theorem outbound_per_target args limits :
  outbound args limits = (args ≫= λ a, outbound [a] limits)
  /\ forall more, outbound (args ++ more) limits
                  = outbound args limits ++ outbound more limits.
Proof.
  split.
  - induction args as [|a args IH]; [done|].
    by rewrite outbound_cons, bind_cons, IH.
  - intros more. induction args as [|a args IH]; [done|].
    rewrite <- app_comm_cons, outbound_cons, (outbound_cons a args), IH.
    by rewrite app_assoc.
Qed.

Lemma fire_next (move_joint : list obj -> robot -> result robot) r due t rest :
  next_timer (timers r) = Some ((due, t), rest) ->
  fire move_joint r = run move_joint t (begin_callback due rest r).
Proof. intros Hnext. unfold fire. by rewrite Hnext. Qed.

(** X15. Dispatches made while the cache is empty keep their order: of
    two batches dispatched in a row, the retry of the first runs first,
    and once the cache is filled, on an open socket, the frame of the
    first batch is sent before the frame of the second. *)
Theorem dispatch_order_kept (first second limits : list obj) r :
  motor_limits r = [] -> timers r = [] -> ws_open r = true -> limits ≠ [] ->
  exists r1 r2 r3 r4,
    Human.move_joint first r = Ok r1
    /\ Human.move_joint second r1 = Ok r2
    /\ sent r2 = sent r
    /\ fire Human.move_joint (set_motor_limits limits r2) = Ok r3
    /\ fire Human.move_joint r3 = Ok r4
    /\ sent r4 = sent r ++ move_joint_frames (outbound first limits)
                        ++ move_joint_frames (outbound second limits)
    /\ timers r4 = [].
Proof.
  intros Hlim Htimers Hopen Hfull.
  pose (r1 := setTimeout (RetryMoveJoint first) 500
                (console_write [LogMotorLimits []] r)).
  pose (r2 := setTimeout (RetryMoveJoint second) 500
                (console_write [LogMotorLimits []] r1)).
  assert (E1 : Human.move_joint first r = Ok r1)
    by (by rewrite move_joint_unfold, Hlim).
  assert (E2 : Human.move_joint second r1 = Ok r2).
  { rewrite move_joint_unfold. cbn [r1 motor_limits setTimeout console_write].
    by rewrite Hlim. }
  assert (Hnext : next_timer (timers (set_motor_limits limits r2))
                  = Some ((clock r + 500, RetryMoveJoint first),
                          [(clock r + 500, RetryMoveJoint second)])).
  { cbn [r1 r2 set_motor_limits setTimeout console_write timers clock].
    rewrite Htimers. cbn [app next_timer fst].
    by replace (clock r + 500 <? clock r + 500)%nat with false
      by (symmetry; apply Nat.ltb_ge; lia). }
  destruct (move_joint_open first
              (begin_callback (clock r + 500)
                 [(clock r + 500, RetryMoveJoint second)]
                 (set_motor_limits limits r2)))
    as (r3 & E3 & Hs3 & Ht3 & Hl3 & Ho3 & _); [done..|].
  cbn [begin_callback set_motor_limits sent timers motor_limits r1 r2
       setTimeout console_write] in Hs3, Ht3, Hl3.
  destruct (move_joint_open second (begin_callback (clock r + 500) [] r3))
    as (r4 & E4 & Hs4 & Ht4 & _);
    [done|cbn [begin_callback motor_limits]; by rewrite Hl3|].
  cbn [begin_callback sent timers motor_limits] in Hs4, Ht4.
  exists r1, r2, r3, r4. split_and!; try done.
  - by rewrite (fire_next _ _ _ _ _ Hnext).
  - by rewrite (fire_next Human.move_joint r3 (clock r + 500)
                  (RetryMoveJoint second) []) by (by rewrite Ht3).
  - by rewrite Hs4, Hs3, Hl3, app_assoc.
Qed.

End DispatcherMore.

(** ** More on the control-plane request *)

Section RequestMore.
Context `{Runtime}.
Import EventLoop Traces.

(** X16. The caller's configuration wins: every field it sets reaches
    axios with the caller's value, [timeout] and [baseURL] included; the
    defaults 5000 and the base URL of the connection fill in only where
    the caller is silent, and nothing else is added. *)
Theorem request_config_caller_wins (config : AxiosRequestConfig) (r : robot) :
  (forall k v, config !! k = Some v -> request_config config r !! k = Some v)
  /\ dom (request_config config r) = dom config ∪ {[ "timeout"; "baseURL" ]}
  /\ (config !! "timeout" = None ->
       request_config config r !! "timeout" = Some (CfgMillis 5000))
  /\ (config !! "baseURL" = None ->
       request_config config r !! "baseURL" = Some (CfgString (baseUrl r))).
Proof.
  unfold request_config. split_and!.
  - intros k v Hk. by apply lookup_union_Some_l.
  - rewrite dom_union_L, dom_insert_L, dom_singleton_L. set_solver.
  - intros Hnone. rewrite lookup_union_r by done. by simplify_map_eq.
  - intros Hnone. rewrite lookup_union_r by done. by simplify_map_eq.
Qed.

Lemma call_control (config : AxiosRequestConfig) :
  dom config ⊆ request_fields -> control_call (call config).
Proof.
  intros Hshape server r. exists (request_config config r).
  assert (Htimeout : config !! "timeout" = None).
  { apply not_elem_of_dom. unfold request_fields in Hshape. set_solver. }
  assert (Hbase : config !! "baseURL" = None).
  { apply not_elem_of_dom. unfold request_fields in Hshape. set_solver. }
  assert (H5000 : request_config config r !! "timeout" = Some (CfgMillis 5000)).
  { unfold request_config. rewrite lookup_union_r by done. by simplify_map_eq. }
  split_and!; try done.
  - unfold request_config. rewrite lookup_union_r by done. by simplify_map_eq.
  - unfold call, http_request, axios_request, timeout_of. simpl.
    by rewrite H5000.
Qed.

Lemma request_shape (method url : string) :
  dom (request method url) ⊆ request_fields.
Proof. unfold request, request_fields. set_solver. Qed.

Lemma request_data_shape (method url : string) (data : obj) :
  dom (<["data" := CfgData data]> (request method url)) ⊆ request_fields.
Proof. unfold request, request_fields. set_solver. Qed.

Lemma request_params_shape (method url : string) (params : obj) :
  dom (<["params" := CfgData params]> (request method url)) ⊆ request_fields.
Proof. unfold request, request_fields. set_solver. Qed.

(** X17. Every request-response method of the facades, whatever its
    arguments, issues exactly one request, with the timeout 5000 and the
    base URL of its connection, leaves the socket and the timer queue
    alone, and fails with a timeout error 5000 ms after the call when the
    endpoint never answers. *)
Theorem facade_requests :
  control_call start /\ control_call stop
  /\ control_call stand /\ control_call get_joint_limit
  /\ control_call get_joint_states
  /\ (forall frequence, control_call (enable_debug_state frequence))
  /\ control_call disable_debug_state
  /\ (forall arm_action hand_action,
        control_call (upper_body arm_action hand_action))
  /\ (forall lower_body_mode, control_call (lower_body lower_body_mode))
  /\ control_call Facade.get_motor_limit_list
  /\ control_call control_svr_start /\ control_call control_svr_close
  /\ control_call control_svr_status /\ control_call control_svr_log_view
  /\ control_call enable_hand /\ control_call disable_hand
  /\ (forall no orientation, control_call (get_motor_pvc no orientation))
  /\ control_call get_hand_position
  /\ control_call end_effector_enable /\ control_call end_effector_disable
  /\ control_call end_effector_disable_state.
Proof.
  split_and!; intros; apply call_control;
    first [apply request_shape | apply request_data_shape
          | apply request_params_shape].
Qed.

(** X18. A limit fetch that fails, never answers or answers with an empty
    table leaves the cache empty, and then no joint command is ever sent:
    every dispatch and every retry of it re-arms itself 500 ms later, for
    any batch and however many timers fire. *)
Theorem failed_fetch_blocks_dispatch (server : endpoint) (r : robot)
    (args : list obj) :
  motor_limits r = [] -> timers r = [] ->
  (forall t res, (Facade.get_motor_limit_list server r).2 = Fulfilled t res ->
     data_data res = []) ->
  let r' := Human.limits_settled (Facade.get_motor_limit_list server r).2
              (Facade.get_motor_limit_list server r).1 in
  motor_limits r' = []
  /\ exists r0, Human.move_joint args r' = Ok r0
       /\ forall n, exists rn,
            fire_n Human.move_joint n r0 = Ok rn
            /\ sent rn = sent r
            /\ timers rn = [(clock r + 500 * (n + 1), RetryMoveJoint args)].
Proof.
  intros Hlim Htimers Hempty r'.
  assert (Hstate : motor_limits r' = [] /\ timers r' = []
                   /\ sent r' = sent r /\ clock r' = clock r).
  { subst r'. destruct (Facade.get_motor_limit_list server r).2 as [t res| |] eqn:E;
      simpl; [|done..].
    by rewrite (Hempty t res). }
  destruct Hstate as (Hl & Ht & Hs & Hc). split; [done|].
  exists (polling args r' 0). split; [by apply move_joint_empty_cache|].
  intros n. exists (polling args r' n). rewrite fire_n_polling.
  split; [done|]. simpl. by rewrite Hs, Hc.
Qed.

End RequestMore.

(** ** The motion commands *)

Section MotionMore.
Context `{Runtime}.

Lemma cover_param_range (v : value) (lo hi : number) (name : string) :
  clampable v -> number_le lo hi = true ->
  exists x w, cover_param v name (VNumber lo) (VNumber hi) = (VNumber x, w)
              /\ within x lo hi = true.
Proof.
  intros Hv Hle. destruct (cover_param_within v lo hi name Hv Hle) as (x & Hx & Hin).
  destruct (cover_param v name (VNumber lo) (VNumber hi)) as [y w].
  simpl in Hx. subst y. by exists x, w.
Qed.

(** X19. The motion commands of Human send only values within their
    ranges, for arguments that are undefined, null or numbers other than
    NaN: [walk] an angle in [-45, 45] and a speed in [-0.8, 0.8], [head]
    three angles in [-17.1887, 17.1887], [body] a squat in [-0.15, 0] and
    a waist rotation in [-14.32, 14.32]. *)
Theorem human_motion_ranges :
  (forall angle speed, clampable angle -> clampable speed ->
     exists a s,
       (walk_message angle speed).1
         = Frame "move" {[ "angle" := VNumber a; "speed" := VNumber s ]}
       /\ within a (Fin (-45)) (Fin 45) = true
       /\ within s (Fin (- lit_0_8)) (Fin lit_0_8) = true)
  /\ (forall roll pitch yaw, clampable roll -> clampable pitch -> clampable yaw ->
     exists x y z,
       (head_message roll pitch yaw).1
         = Frame "head" {[ "roll" := VNumber x; "pitch" := VNumber y;
                           "yaw" := VNumber z ]}
       /\ within x (Fin (- lit_17_1887)) (Fin lit_17_1887) = true
       /\ within y (Fin (- lit_17_1887)) (Fin lit_17_1887) = true
       /\ within z (Fin (- lit_17_1887)) (Fin lit_17_1887) = true)
  /\ (forall squat rotate_waist, clampable squat -> clampable rotate_waist ->
     exists q w,
       (body_message squat rotate_waist).1
         = Frame "lower_body" {[ "squat" := VNumber q;
                                 "rotate_waist" := VNumber w ]}
       /\ within q (Fin (- lit_0_15)) (Fin 0) = true
       /\ within w (Fin (- lit_14_32)) (Fin lit_14_32) = true).
Proof.
  split_and!.
  - intros angle speed Ha Hs. unfold walk_message.
    destruct (cover_param_range angle (Fin (-45)) (Fin 45) "angle")
      as (a & w1 & -> & Hina); [done..|].
    destruct (cover_param_range speed (Fin (- lit_0_8)) (Fin lit_0_8) "speed")
      as (s & w2 & -> & Hins); [done..|].
    by exists a, s.
  - intros roll pitch yaw Hr Hp Hy. unfold head_message.
    destruct (cover_param_range roll (Fin (- lit_17_1887)) (Fin lit_17_1887) "roll")
      as (x & w1 & -> & Hinx); [done..|].
    destruct (cover_param_range pitch (Fin (- lit_17_1887)) (Fin lit_17_1887) "pitch")
      as (y & w2 & -> & Hiny); [done..|].
    destruct (cover_param_range yaw (Fin (- lit_17_1887)) (Fin lit_17_1887) "yaw")
      as (z & w3 & -> & Hinz); [done..|].
    by exists x, y, z.
  - intros squat rotate_waist Hq Hw. unfold body_message.
    destruct (cover_param_range squat (Fin (- lit_0_15)) (Fin 0) "squat")
      as (q & w1 & -> & Hinq); [done..|].
    destruct (cover_param_range rotate_waist (Fin (- lit_14_32)) (Fin lit_14_32)
                "rotate_waist") as (w & w2 & -> & Hinw); [done..|].
    by exists q, w.
Qed.

(** X20. [Car.move] sends an angle in [-45, 45] and a speed in
    [-500, 500], for arguments that are undefined, null or numbers other
    than NaN; arguments left out are sent as 0. *)
Theorem car_move_range :
  (forall angle speed, clampable angle -> clampable speed ->
     exists a s,
       (car_move_message angle speed).1
         = Frame "move" {[ "angle" := VNumber a; "speed" := VNumber s ]}
       /\ within a (Fin (-45)) (Fin 45) = true
       /\ within s (Fin (-500)) (Fin 500) = true)
  /\ (car_move_message VUndefined VUndefined).1
     = Frame "move" {[ "angle" := num 0; "speed" := num 0 ]}.
Proof.
  split; [|done].
  intros angle speed Ha Hs. unfold car_move_message.
  destruct (cover_param_range angle (Fin (-45)) (Fin 45) "angle")
    as (a & w1 & -> & Hina); [done..|].
  destruct (cover_param_range speed (Fin (-500)) (Fin 500) "speed")
    as (s & w2 & -> & Hins); [done..|].
  by exists a, s.
Qed.

End MotionMore.

(** ** Addresses *)

Lemma string_app_assoc (a b c : string) : (a +:+ b) +:+ c = a +:+ (b +:+ c).
Proof.
  induction a as [|x a IH]; [done|].
  change (String x ((a +:+ b) +:+ c) = String x (a +:+ (b +:+ c))).
  by rewrite IH.
Qed.

(** X21. One option, one server. For every option the request-response
    address and the socket address of a connection name the same host and
    port, with [https] and [wss] together or [http] and [ws] together;
    [get_robot_type] queries [/robot/type] under that same request-response
    address, and the camera its status under it; without an option all of
    them go to 127.0.0.1:8001 without SSL. *)
Theorem addresses_agree (option : option Connect.ConnectOption) :
  (exists authority,
     (Connect.baseUrl option = "https://" +:+ authority
        /\ Connect.wsUrl option = "wss://" +:+ authority +:+ "/ws"
      \/ Connect.baseUrl option = "http://" +:+ authority
        /\ Connect.wsUrl option = "ws://" +:+ authority +:+ "/ws"))
  /\ Connect.get_robot_type option = Connect.baseUrl option +:+ "/robot/type"
  /\ Connect.baseUrl None = "http://127.0.0.1:8001"
  /\ Connect.wsUrl None = "ws://127.0.0.1:8001/ws"
  /\ Connect.camera_status (Connect.baseUrl None)
     = "http://127.0.0.1:8001/control/camera_status".
Proof.
  split_and!; try done.
  - exists (Connect.host_of option +:+ ":" +:+ Connect.port_of option).
    unfold Connect.baseUrl, Connect.wsUrl.
    destruct (Connect.ssl_of option); [left|right];
      by rewrite !string_app_assoc.
  - unfold Connect.get_robot_type, Connect.baseUrl.
    destruct (Connect.ssl_of option); by rewrite !string_app_assoc.
Qed.

(** * Closed instances of the further properties *)

Section MoreInstances.
#[local] Existing Instance Examples.engine.
Import EventLoop Examples MoreExamples.

Lemma cover_param_idempotent_at_99 :
  number_le (Fin (-10)) (Fin 10) = true
  /\ cover_param (VNumber (Fin 10)) "angle" (VNumber (Fin (-10))) (VNumber (Fin 10))
     = (VNumber (Fin 10), []).
Proof.
  split; [reflexivity|].
  exact (proj1 (cover_param_idempotent (Fin 99) (Fin (-10)) (Fin 10) "angle" eq_refl)).
Defined.

Lemma cover_param_warnings_at_5 :
  Fin (-10) ≠ NaN /\ Fin 10 ≠ NaN
  /\ (cover_param (VNumber (Fin 5)) "angle" (VNumber (Fin (-10))) (VNumber (Fin 10))).2
     = [].
Proof.
  split; [discriminate|]. split; [discriminate|].
  apply (proj1 (cover_param_warnings (Fin 5) (Fin (-10)) (Fin 10) "angle"
                  ltac:(discriminate) ltac:(discriminate))).
  right. reflexivity.
Defined.

Lemma cover_param_inverted_at_0 :
  number_lt (Fin (-10)) (Fin 10) = true /\ Fin 0 ≠ NaN
  /\ (cover_param (VNumber (Fin 0)) "angle" (VNumber (Fin 10)) (VNumber (Fin (-10)))).1
     = VNumber (Fin 10).
Proof.
  split; [reflexivity|]. split; [discriminate|].
  exact (cover_param_inverted (Fin 0) (Fin 10) (Fin (-10)) "angle" eq_refl
           ltac:(discriminate)).
Defined.

Lemma cover_param_missing_threshold_at_99 :
  loose_eq (VNumber (Fin 99)) VUndefined = false
  /\ cover_param (VNumber (Fin 99)) "angle" VUndefined VUndefined
     = (VNumber (Fin 99), []).
Proof.
  split; [reflexivity|].
  exact (proj1 (cover_param_missing_threshold "angle") (VNumber (Fin 99)) eq_refl).
Defined.

Lemma retry_count_bounded_at_fresh :
  retry_count fresh_robot <= 5
  /\ exists r', websocket_send clamped_frame fresh_robot = Ok r'
       /\ retry_count r' <= 5.
Proof.
  assert (Hle : retry_count fresh_robot <= 5) by (simpl; lia).
  split; [exact Hle|]. eexists. split; [reflexivity|].
  exact (proj1 (retry_count_bounded fresh_robot Hle) clamped_frame _ eq_refl).
Defined.

Lemma messages_conserved_at_fresh :
  only_sends (timers fresh_robot)
  /\ exists r', websocket_send clamped_frame fresh_robot = Ok r'
       /\ sent r' ++ pending (timers r') ≡ₚ [clamped_frame].
Proof.
  assert (Honly : only_sends (timers fresh_robot)).
  { intros t Ht. simpl in Ht. by apply elem_of_nil in Ht. }
  split; [exact Honly|]. eexists. split; [reflexivity|].
  exact (proj1 (proj1 (messages_conserved Human.move_joint fresh_robot Honly)
                  clamped_frame _ eq_refl)).
Defined.

Lemma retry_count_shared_at_fresh :
  ws_open fresh_robot = false
  /\ exists r1 r2,
       websocket_send clamped_frame fresh_robot = Ok r1
       /\ websocket_send enable_1_left r1 = Ok r2
       /\ fire_n Human.move_joint 4 r2 = Throw max_retry_error.
Proof.
  split; [reflexivity|].
  destruct (retry_count_shared Human.move_joint clamped_frame enable_1_left
              fresh_robot eq_refl eq_refl eq_refl)
    as (r1 & r2 & r5 & H1 & H2 & _ & _ & _ & _ & _ & Hthrow).
  exists r1, r2. split; [exact H1|]. split; [exact H2|exact Hthrow].
Defined.

Lemma send_order_not_kept_at_fresh :
  retry_count fresh_robot < 5
  /\ exists r1 r2 r3,
       websocket_send clamped_frame fresh_robot = Ok r1
       /\ websocket_send enable_1_left (set_ws_open true r1) = Ok r2
       /\ fire Human.move_joint r2 = Ok r3
       /\ sent r3 = [enable_1_left; clamped_frame].
Proof.
  assert (Hlt : retry_count fresh_robot < 5) by (simpl; lia).
  split; [exact Hlt|].
  destruct (send_order_not_kept Human.move_joint clamped_frame enable_1_left
              fresh_robot eq_refl Hlt eq_refl)
    as (r1 & r2 & r3 & H1 & H2 & H3 & _ & Hsent & _).
  exists r1, r2, r3. split; [exact H1|]. split; [exact H2|].
  split; [exact H3|exact Hsent].
Defined.

Lemma sixth_attempt_delivers_at_fresh :
  ws_open fresh_robot = false
  /\ exists r1 r5 r6,
       websocket_send clamped_frame fresh_robot = Ok r1
       /\ fire_n Human.move_joint 4 r1 = Ok r5
       /\ fire Human.move_joint (set_ws_open true r5) = Ok r6
       /\ sent r6 = [clamped_frame] /\ clock r6 = 5000.
Proof.
  split; [reflexivity|].
  destruct (sixth_attempt_delivers Human.move_joint clamped_frame fresh_robot
              eq_refl eq_refl eq_refl)
    as (r1 & r5 & r6 & H1 & H5 & _ & H6 & Hsent & _ & _ & Hclock).
  exists r1, r5, r6. split; [exact H1|]. split; [exact H5|].
  split; [exact H6|]. split; [exact Hsent|exact Hclock].
Defined.

Lemma outbound_at_batch :
  Human.Motor "1" "left" (Fin 10) ∈ outbound batch [limit_1_left "x"].
Proof.
  replace (outbound batch [limit_1_left "x"])
    with [Human.Motor "1" "left" (Fin 10)] by (vm_compute; reflexivity).
  apply list_elem_of_here.
Defined.

Lemma outbound_entry_provenance_at_batch :
  Human.Motor "1" "left" (Fin 10) ∈ outbound batch [limit_1_left "x"]
  /\ Human.Motor "1" "left" (Fin 10) !! "no" = Some (VString "1").
Proof.
  split; [exact outbound_at_batch|].
  destruct (outbound_entry_provenance batch [limit_1_left "x"] _ outbound_at_batch)
    as (a & l & _ & Hl & _ & Hforward & _).
  apply list_elem_of_singleton in Hl. subst l.
  apply Hforward; [reflexivity|]. set_solver.
Defined.


Lemma unique_keys_one : unique_keys [limit_1_left "x"].
Proof.
  split.
  - intros l ->%list_elem_of_singleton. by eexists.
  - apply (bool_decide_unpack _). vm_compute. exact I.
Defined.

Lemma move_motor_sends_clamped_at_99 :
  ws_open (open_robot [limit_1_left "x"]) = true
  /\ number_le (Fin (-10)) (Fin 10) = true
  /\ exists r', move_motor "1" "left" (VNumber (Fin 99))
                  (open_robot [limit_1_left "x"]) = Ok r'
       /\ sent r' = [clamped_frame].
Proof.
  split; [reflexivity|]. split; [reflexivity|].
  destruct (move_motor_sends_clamped "1" "left" "x" (Fin 99) (Fin (-10)) (Fin 10)
              (open_robot [limit_1_left "x"]) eq_refl unique_keys_one)
    as (r' & Hr' & Hsent & _); [apply list_elem_of_here|reflexivity|].
  exists r'. split; [exact Hr'|exact Hsent].
Defined.

Lemma dispatch_order_kept_at_batch :
  motor_limits (open_robot []) = []
  /\ exists r1 r2 r3 r4,
       Human.move_joint batch (open_robot []) = Ok r1
       /\ Human.move_joint [Human.Motor "1" "left" (Fin 5)] r1 = Ok r2
       /\ fire Human.move_joint (set_motor_limits [limit_1_left "x"] r2) = Ok r3
       /\ fire Human.move_joint r3 = Ok r4
       /\ sent r4 = [clamped_frame;
                     Envelope "move_joint"
                       (PayloadList [Human.Motor "1" "left" (Fin 5)])].
Proof.
  split; [reflexivity|].
  destruct (dispatch_order_kept batch [Human.Motor "1" "left" (Fin 5)]
              [limit_1_left "x"] (open_robot []) eq_refl eq_refl eq_refl)
    as (r1 & r2 & r3 & r4 & H1 & H2 & _ & H3 & H4 & Hsent & _); [discriminate|].
  exists r1, r2, r3, r4. split; [exact H1|]. split; [exact H2|].
  split; [exact H3|]. split; [exact H4|]. rewrite Hsent. reflexivity.
Defined.

Lemma request_config_caller_wins_at_hasty :
  hasty_request !! "timeout" = Some (CfgMillis 100)
  /\ request_config hasty_request fresh_robot !! "timeout" = Some (CfgMillis 100).
Proof.
  split; [reflexivity|].
  exact (proj1 (request_config_caller_wins hasty_request fresh_robot)
           "timeout" (CfgMillis 100) eq_refl).
Defined.

Lemma failed_fetch_blocks_dispatch_at_batch :
  (Facade.get_motor_limit_list NeverAnswers (open_robot [])).2
    = Rejected 5000 TimeoutError
  /\ exists r0 r3,
       Human.move_joint batch
         (Human.limits_settled
            (Facade.get_motor_limit_list NeverAnswers (open_robot [])).2
            (Facade.get_motor_limit_list NeverAnswers (open_robot [])).1) = Ok r0
       /\ fire_n Human.move_joint 3 r0 = Ok r3
       /\ sent r3 = [].
Proof.
  split; [reflexivity|].
  destruct (failed_fetch_blocks_dispatch NeverAnswers (open_robot []) batch
              eq_refl eq_refl) as (_ & r0 & H0 & Hpoll).
  - intros t res Hfetch. discriminate Hfetch.
  - destruct (Hpoll 3) as (r3 & H3 & Hsent & _).
    exists r0, r3. split; [exact H0|]. split; [exact H3|exact Hsent].
Defined.

Lemma human_motion_ranges_at_99 :
  clampable (VNumber (Fin 99)) /\ clampable VUndefined
  /\ exists a s,
       (walk_message (VNumber (Fin 99)) VUndefined).1
         = Frame "move" {[ "angle" := VNumber a; "speed" := VNumber s ]}
       /\ within a (Fin (-45)) (Fin 45) = true
       /\ within s (Fin (- lit_0_8)) (Fin lit_0_8) = true.
Proof.
  split; [discriminate|]. split; [exact I|].
  exact (proj1 human_motion_ranges (VNumber (Fin 99)) VUndefined
           ltac:(discriminate) I).
Defined.

Lemma car_move_range_at_600 :
  clampable (VNumber (Fin 600)) /\ clampable VNull
  /\ exists a s,
       (car_move_message VNull (VNumber (Fin 600))).1
         = Frame "move" {[ "angle" := VNumber a; "speed" := VNumber s ]}
       /\ within a (Fin (-45)) (Fin 45) = true
       /\ within s (Fin (-500)) (Fin 500) = true.
Proof.
  split; [discriminate|]. split; [exact I|].
  exact (proj1 car_move_range VNull (VNumber (Fin 600)) I ltac:(discriminate)).
Defined.

End MoreInstances.
